(** * chrome-page-server: the browser lifecycle and the fetch pipeline of server.js

    A shallow embedding of [server.js]: the two module variables [browser]
    and [browserPage], [initBrowser] with its 'disconnected' listener, the
    four Express handlers, and the pure helpers [sanitizeUrl], [sanitizeHtml]
    and the Turndown rule [preserveImages].

    Asynchronous code is written in a small free monad [prog]: every [await]
    of a call into puppeteer or of a timer is an [Await] node, where the
    task is suspended and the event loop may run other tasks.  Awaiting one
    of the module's own async functions ([await_async]) runs the callee
    inside the caller's segment up to its first await, and gives up the turn
    once more when the callee returns.  A synchronous segment (the code
    between two suspensions) is executed by [run]; the event loop is the
    step function [step] on [system].

    Puppeteer, Node's [fs], [Date] and [URL], and Turndown are not part of
    the repository: what they answer is chosen by the environment (the
    labels of [step], the [oracle] of synchronous calls) or taken as a
    parameter ([libraries]).  Request bodies are restricted to what the
    specification allows: [url] and [selector] are strings when present,
    [waitTime] a natural number. *)

From Stdlib Require Import NArith List Ascii String Lia.
From stdpp Require Import base option list gmap.

Local Open Scope N_scope.

(* ================================================================== *)
(** ** JavaScript strings *)

(** A JS string is a sequence of UTF-16 code units. *)
Definition code_unit := N.
Definition jsstring := list code_unit.

(** An ASCII literal of the source as a [jsstring]. *)
Definition js (s : string) : jsstring :=
  map N_of_ascii (list_ascii_of_string s).
Arguments js : simpl never.

Definition dquote : code_unit := 34.
Definition space : code_unit := 32.
Definition NUL : code_unit := 0.
Definition LS : code_unit := 8232.   (* U+2028 LINE SEPARATOR *)
Definition PS : code_unit := 8233.   (* U+2029 PARAGRAPH SEPARATOR *)

(** [s.replace(/[class]/g, rep)] for a pattern that matches one code unit:
    every matching unit is replaced by [rep], the others are kept. *)
Definition replace_class (cls : code_unit -> bool) (rep : jsstring)
    (s : jsstring) : jsstring :=
  flat_map (fun c => if cls c then rep else [c]) s.

(** JS truthiness of a value that is a string, [null] or [undefined]. *)
Definition truthy (v : option jsstring) : bool :=
  match v with
  | Some (_ :: _) => true
  | _ => false
  end.

(** [v || ''] for such a value. *)
Definition or_empty (v : option jsstring) : jsstring :=
  match v with
  | Some (c :: s) => c :: s
  | _ => []
  end.

(* ================================================================== *)
(** ** sanitizeHtml *)

Definition sanitizeHtml (html : jsstring) : jsstring :=
  let sanitized := replace_class (N.eqb NUL) [] html in
  let sanitized := replace_class (fun c => N.eqb c LS || N.eqb c PS)
                                 (js " ") sanitized in
  sanitized.

(** The sanitization in the words of the specification, one unit at a time:
    NUL is dropped, U+2028 and U+2029 become one space, the rest is kept. *)
Definition sanitize_unit (c : code_unit) : jsstring :=
  if N.eqb c NUL then []
  else if N.eqb c LS then [space]
  else if N.eqb c PS then [space]
  else [c].

Definition sanitize_spec (html : jsstring) : jsstring :=
  flat_map sanitize_unit html.

(** A code unit [sanitizeHtml] has nothing to do with. *)
Definition clean_unit (c : code_unit) : Prop :=
  c <> NUL /\ c <> LS /\ c <> PS.

(* ================================================================== *)
(** ** escapeRegExp *)

Definition backslash : code_unit := 92.

(** The class [[.*+?^${}()|[\]\\]] of [escapeRegExp]. *)
Definition regexp_special (c : code_unit) : bool :=
  bool_decide (c ∈ [46; 42; 43; 63; 94; 36; 123; 125; 40; 41; 124; 91; 93; 92]).

(** [s.replace(/[class]/g, rep)] for a replacement that mentions the match
    ([$&]): [rep m] is what replaces the matched unit [m]. *)
Definition replace_matched (cls : code_unit -> bool)
    (rep : code_unit -> jsstring) (s : jsstring) : jsstring :=
  flat_map (fun c => if cls c then rep c else [c]) s.

(** [function escapeRegExp(string)] *)
Definition escapeRegExp (s : jsstring) : jsstring :=
  replace_matched regexp_special (fun m => [backslash] ++ [m]) s.

(** Reading a pattern back: a backslash stands for the unit after it. *)
Fixpoint unescape (s : jsstring) : jsstring :=
  match s with
  | [] => []
  | c :: rest =>
      if N.eqb c backslash then
        match rest with
        | [] => [c]
        | d :: rest' => d :: unescape rest'
        end
      else c :: unescape rest
  end.

(** A pattern that can only match literally: every special unit in it is
    the second unit of an escape. *)
Fixpoint literal_pattern (s : jsstring) : bool :=
  match s with
  | [] => true
  | c :: rest =>
      if N.eqb c backslash then
        match rest with
        | [] => false
        | d :: rest' => regexp_special d && literal_pattern rest'
        end
      else negb (regexp_special c) && literal_pattern rest
  end.

(* ================================================================== *)
(** ** The Turndown rule [preserveImages] *)

(** The DOM node handed to a rule's [replacement]: its attributes by name. *)
Record element := {
  nodeName : jsstring;
  attributes : gmap (list N) (list N)
}.

(** [node.getAttribute(name)]: the value, or [null] when there is none. *)
Definition getAttribute (node : element) (name : jsstring) : option jsstring :=
  attributes node !! name.

Definition preserveImages_filter (node : element) : bool :=
  bool_decide (nodeName node = js "IMG").

Definition preserveImages_replacement (content : jsstring) (node : element)
    : jsstring :=
  let alt := or_empty (getAttribute node (js "alt")) in
  let src := or_empty (getAttribute node (js "src")) in
  let title := or_empty (getAttribute node (js "title")) in
  if truthy (Some src) then
    js "![" ++ alt ++ js "](" ++ src
      ++ (if truthy (Some title) then js " " ++ [dquote] ++ title ++ [dquote]
          else [])
      ++ js ")"
  else [].

(** An [img] element with the given attributes. *)
Definition img (attrs : list (jsstring * jsstring)) : element :=
  {| nodeName := js "IMG"; attributes := list_to_map attrs |}.

(* ================================================================== *)
(** ** The module state and the outside world *)

(** Identities of the objects puppeteer hands out. *)
Definition handle := nat.        (* a Browser *)
Definition page := nat.          (* a Page *)
Definition elem := nat.          (* an ElementHandle *)

(** [let browser = null; let browserPage = null;] *)
Record globals := {
  browser : option handle;
  browserPage : option page
}.

Definition absent : globals := {| browser := None; browserPage := None |}.

(** What a call gives back: a value, or an exception (a rejected promise)
    with its [message]. *)
Inductive result (A : Type) : Type :=
| Resolved (a : A)
| Rejected (message : jsstring).
Arguments Resolved {A} a.
Arguments Rejected {A} message.

(** The promise-returning calls the server awaits, indexed by the type of
    the value they resolve to. *)
Inductive call : Type -> Type :=
| Launch : call handle                                   (* puppeteer.launch *)
| NewPage (b : handle) : call page                       (* browser.newPage *)
| Close (b : handle) : call unit                         (* browser.close *)
| SetViewport (p : page) (width height : N) : call unit
| SetUserAgent (p : page) : call unit
| EvaluateOnNewDocument (p : page) : call unit
| SetDefaultNavigationTimeout (p : page) (ms : N) : call unit
| SetDefaultTimeout (p : page) (ms : N) : call unit
| Goto (p : page) (url : jsstring) (timeout : N) : call unit
| WaitForNetworkIdle (p : page) (timeout idleTime : N) : call unit
| EvaluateReadyState (p : page) : call unit   (* resolves at readyState 'complete' *)
| SetTimeout (ms : N) : call unit             (* new Promise(r => setTimeout(r, ms)) *)
| WaitForSelector (p : page) (selector : jsstring) (timeout : N)
    (visible : bool) : call unit
| EvaluateIsPageLoaded (p : page) : call bool
| Query (p : page) (selector : jsstring) : call (option elem)   (* page.$ *)
| EvaluateOuterHTML (p : page) (el : elem) : call jsstring
| Content (p : page) : call jsstring
| Title (p : page) : call jsstring.

(** Synchronous calls into Node: they return or throw at once. *)
Inductive syscall : Type -> Type :=
| DateNow : syscall N
| MkdirSync (dir : N) : syscall unit
| ExistsSync (dir : N) : syscall bool
| RmSync (dir : N) : syscall unit
| ProcessUptime : syscall N.

Definition oracle := forall A, syscall A -> result A.

(** JSON bodies the handlers send. *)
Inductive body :=
| JStatus (status : jsstring)
| JStatusUptime (status : jsstring) (uptime : N)
| JError (error : jsstring)
| JErrorMessage (error message : jsstring)
| JMarkdown (url markdown title : jsstring).

Record response := { code : N; payload : body }.

Inductive level := Log | Warn | Error.

(** Effects that need no answer. *)
Inductive effect :=
| Console (l : level) (text : jsstring)
| Respond (r : response)
| OnDisconnected (b : handle) (tempUserDataDir : N).   (* browser.on('disconnected', ...) *)

(** The two libraries the pipeline calls as pure functions: Node's WHATWG
    [URL] (the serialized URL, or [None] when the constructor throws) and
    Turndown's [turndown] (which may throw). *)
Record libraries := {
  URL_parse : jsstring -> option jsstring;
  turndown : jsstring -> result jsstring
}.

(* ================================================================== *)
(** ** Programs *)

Inductive prog (R : Type) : Type :=
| Ret (r : R)
| Throw (message : jsstring)
| Get (k : globals -> prog R)
| Put (g : globals) (k : prog R)
| Do (e : effect) (k : prog R)
| Sys {A : Type} (c : syscall A) (k : result A -> prog R)
| Await {A : Type} (c : call A) (k : result A -> prog R)
| AwaitAll (cs : list (call unit)) (k : result unit -> prog R)
| Yield (k : prog R).
Arguments Ret {R} r.
Arguments Throw {R} message.
Arguments Get {R} k.
Arguments Put {R} g k.
Arguments Do {R} e k.
Arguments Sys {R A} c k.
Arguments Await {R A} c k.
Arguments AwaitAll {R} cs k.
Arguments Yield {R} k.

Fixpoint bind {A B : Type} (p : prog A) (f : A -> prog B) : prog B :=
  match p with
  | Ret a => f a
  | Throw m => Throw m
  | Get k => Get (fun g => bind (k g) f)
  | Put g k => Put g (bind k f)
  | Do e k => Do e (bind k f)
  | Sys c k => Sys c (fun r => bind (k r) f)
  | Await c k => Await c (fun r => bind (k r) f)
  | AwaitAll cs k => AwaitAll cs (fun r => bind (k r) f)
  | Yield k => Yield (bind k f)
  end.

(** [try { p } catch (error) { h error.message }] *)
Fixpoint try_catch {A : Type} (p : prog A) (h : jsstring -> prog A) : prog A :=
  match p with
  | Ret a => Ret a
  | Throw m => h m
  | Get k => Get (fun g => try_catch (k g) h)
  | Put g k => Put g (try_catch k h)
  | Do e k => Do e (try_catch k h)
  | Sys c k => Sys c (fun r => try_catch (k r) h)
  | Await c k => Await c (fun r => try_catch (k r) h)
  | AwaitAll cs k => AwaitAll cs (fun r => try_catch (k r) h)
  | Yield k => Yield (try_catch k h)
  end.

Declare Scope prog_scope.
Delimit Scope prog_scope with prog.
Notation "x <- p ;; q" := (bind p (fun x => q))
  (at level 100, p at next level, q at level 200, right associativity)
  : prog_scope.
Notation "p ;; q" := (bind p (fun _ => q))
  (at level 100, q at level 200, right associativity) : prog_scope.
Local Open Scope prog_scope.

Definition settle {A : Type} (r : result A) : prog A :=
  match r with
  | Resolved a => Ret a
  | Rejected m => Throw m
  end.

Definition await {A : Type} (c : call A) : prog A := Await c settle.
Definition await_all (cs : list (call unit)) : prog unit := AwaitAll cs settle.
Definition sys {A : Type} (c : syscall A) : prog A := Sys c settle.

(** [await f()] for an async function [f] of the module: [f] runs inside the
    caller's segment up to its first await, and when it returns (or throws)
    the caller goes on (or catches) one microtask later, after whatever
    else was queued. *)
Definition await_async {A : Type} (f : prog A) : prog A :=
  try_catch (x <- f ;; Yield (Ret x)) (fun m => Yield (Throw m)).
Definition console (l : level) (text : string) : prog unit :=
  Do (Console l (js text)) (Ret tt).
Definition console_js (l : level) (text : jsstring) : prog unit :=
  Do (Console l text) (Ret tt).
Definition respond (status : N) (b : body) : prog unit :=
  Do (Respond {| code := status; payload := b |}) (Ret tt).

(** [browser = v] and [browserPage = v] *)
Definition assign_browser (v : option handle) : prog unit :=
  Get (fun g => Put {| browser := v; browserPage := browserPage g |} (Ret tt)).
Definition assign_browserPage (v : option page) : prog unit :=
  Get (fun g => Put {| browser := browser g; browserPage := v |} (Ret tt)).

(** [browser.m(...)] and [browserPage.m(...)] read the variable when the
    statement runs; on [null] the property access throws a TypeError. *)
Definition null_property (m : string) : jsstring :=
  js "Cannot read properties of null (reading '" ++ js m ++ js "')".

Definition the_browser (m : string) : prog handle :=
  Get (fun g => match browser g with
                 | Some b => Ret b
                 | None => Throw (null_property m)
                 end).
Definition the_page (m : string) : prog page :=
  Get (fun g => match browserPage g with
                 | Some p => Ret p
                 | None => Throw (null_property m)
                 end).

(* ================================================================== *)
(** ** server.js *)

(** Request bodies of POST /api/get-markdown: [{ url, waitTime, selector }],
    each field possibly missing. *)
Record fetch_body := {
  url : option jsstring;
  waitTime : option N;
  selector : option jsstring
}.

Inductive request :=
| GetStatus
| StartBrowser
| StopBrowser
| PostMarkdown (b : fetch_body).

Definition console_with (l : level) (text : string) (detail : jsstring)
    : prog unit :=
  Do (Console l (js text ++ [space] ++ detail)) (Ret tt).

(** [async function initBrowser()].  The temporary directory is named after
    [Date.now()], which stands for it here. *)
Definition initBrowser : prog bool :=
  try_catch
    (console Log "Launching browser..." ;;
     console Log "Using Chrome at:" ;;
     tempUserDataDir <- sys DateNow ;;
     console Log "Temporary user data directory:" ;;
     sys (MkdirSync tempUserDataDir) ;;
     b <- await Launch ;;
     assign_browser (Some b) ;;
     console Log "Browser launched successfully" ;;
     b <- the_browser "newPage" ;;
     p <- await (NewPage b) ;;
     assign_browserPage (Some p) ;;
     b <- the_browser "on" ;;
     Do (OnDisconnected b tempUserDataDir) (Ret tt) ;;
     p <- the_page "setViewport" ;;
     await (SetViewport p 1920 1080) ;;
     p <- the_page "setUserAgent" ;;
     await (SetUserAgent p) ;;
     p <- the_page "evaluateOnNewDocument" ;;
     await (EvaluateOnNewDocument p) ;;
     Ret true)
    (fun error =>
       console_with Error "Error launching browser:" error ;;
       console_with Error "Error details:" error ;;
       assign_browser None ;;
       assign_browserPage None ;;
       Ret false).

(** The listener [browser.on('disconnected', async () => { ... })] that
    [initBrowser] registers; it closes over [tempUserDataDir]. *)
Definition disconnected (tempUserDataDir : N) : prog unit :=
  console Log "Browser disconnected. Cleaning up..." ;;
  try_catch
    (found <- sys (ExistsSync tempUserDataDir) ;;
     if (found : bool) then sys (RmSync tempUserDataDir) else Ret tt)
    (fun error => console_with Warn "Cleanup warning:" error) ;;
  assign_browser None ;;
  assign_browserPage None ;;
  await_async initBrowser ;;
  Ret tt.

(** [app.get('/api/status')] *)
Definition get_status : prog unit :=
  Get (fun g =>
    let text := match browser g with
                | Some _ => js "Browser running"
                | None => js "Browser not running"
                end in
    uptime <- match browser g with
              | Some _ => sys ProcessUptime
              | None => Ret 0
              end ;;
    respond 200 (JStatusUptime text uptime)).

(** [app.post('/api/start-browser')] *)
Definition start_browser : prog unit :=
  Get (fun g =>
    match browser g with
    | Some _ => respond 200 (JStatus (js "Browser already running"))
    | None =>
        success <- await_async initBrowser ;;
        if (success : bool)
        then respond 200 (JStatus (js "Browser started successfully"))
        else respond 500 (JError (js "Failed to start browser"))
    end).

(** [app.post('/api/stop-browser')] *)
Definition stop_browser : prog unit :=
  Get (fun g =>
    match browser g with
    | None => respond 200 (JStatus (js "Browser not running"))
    | Some _ =>
        try_catch
          (b <- the_browser "close" ;;
           await (Close b) ;;
           assign_browser None ;;
           assign_browserPage None ;;
           respond 200 (JStatus (js "Browser stopped successfully")))
          (fun error =>
             respond 500 (JError (js "Failed to stop browser: " ++ error)))
    end).

Section Pipeline.

Variable lib : libraries.

(** [function sanitizeUrl(url)] *)
Definition sanitizeUrl (u : jsstring) : prog jsstring :=
  try_catch
    (match URL_parse lib u with
     | Some parsedUrl => Ret parsedUrl
     | None => Throw (js "Invalid URL")
     end)
    (fun _ => Throw (js "Invalid URL format")).

Definition selector_warning (sel : jsstring) : jsstring :=
  js "Selector " ++ [dquote] ++ sel ++ [dquote]
     ++ js " not found or not visible, continuing anyway".

(** The body of the get-markdown handler from [if (!browserPage)] on, which
    is reached on both branches of the [if (!browser)] before it. *)
Definition get_markdown_page (sanitizedUrl : jsstring) (waitTime : N)
    (selector : option jsstring) : prog unit :=
  Get (fun g =>
    match browserPage g with
    | Some _ => Ret tt
    | None => b <- the_browser "newPage" ;;
              p <- await (NewPage b) ;;
              assign_browserPage (Some p)
    end) ;;
  p <- the_page "setDefaultNavigationTimeout" ;;
  await (SetDefaultNavigationTimeout p 60000) ;;
  p <- the_page "setDefaultTimeout" ;;
  await (SetDefaultTimeout p 60000) ;;
  p <- the_page "goto" ;;
  await (Goto p sanitizedUrl 60000) ;;
  p <- the_page "waitForNetworkIdle" ;;
  await_all [WaitForNetworkIdle p 60000 5000;
             EvaluateReadyState p;
             SetTimeout waitTime] ;;
  await (SetTimeout 2000) ;;
  (if truthy selector then
     try_catch
       (p <- the_page "waitForSelector" ;;
        await (WaitForSelector p (or_empty selector) 10000 true))
       (fun _ => console_js Warn (selector_warning (or_empty selector)))
   else Ret tt) ;;
  p <- the_page "evaluate" ;;
  isPageLoaded <- await (EvaluateIsPageLoaded p) ;;
  (if negb isPageLoaded then
     console Warn "Page may not be fully loaded, waiting additional time..." ;;
     await (SetTimeout 5000)
   else Ret tt) ;;
  html <- (if truthy selector then
             p <- the_page "$" ;;
             element <- await (Query p (or_empty selector)) ;;
             match element with
             | Some el => p <- the_page "evaluate" ;;
                          await (EvaluateOuterHTML p el)
             | None => p <- the_page "content" ;;
                       await (Content p)
             end
           else
             p <- the_page "content" ;;
             await (Content p)) ;;
  let sanitizedHtml := sanitizeHtml html in
  markdown <- settle (turndown lib sanitizedHtml) ;;
  p <- the_page "title" ;;
  title <- await (Title p) ;;
  respond 200 (JMarkdown sanitizedUrl markdown title).

(** [app.post('/api/get-markdown')] *)
Definition get_markdown (b : fetch_body) : prog unit :=
  try_catch
    (let waitTime := default 2000 (waitTime b) in
     if negb (truthy (url b)) then
       respond 400 (JError (js "URL is required"))
     else
       sanitizedUrl <- sanitizeUrl (or_empty (url b)) ;;
       Get (fun g =>
         match browser g with
         | Some _ => get_markdown_page sanitizedUrl waitTime (selector b)
         | None =>
             success <- await_async initBrowser ;;
             if (success : bool)
             then get_markdown_page sanitizedUrl waitTime (selector b)
             else respond 500 (JError (js "Failed to start browser"))
         end))
    (fun error =>
       console_with Error "Error fetching page:" error ;;
       respond 500 (JErrorMessage (js "Failed to process URL") error)).

(** The handler Express runs for a request. *)
Definition handler (r : request) : prog unit :=
  match r with
  | GetStatus => get_status
  | StartBrowser => start_browser
  | StopBrowser => stop_browser
  | PostMarkdown b => get_markdown b
  end.

End Pipeline.

(** [startServer], from [app.listen] on: the server accepts requests while
    this first [initBrowser] is in flight. *)
Definition startServer : prog unit :=
  await_async initBrowser ;;
  Ret tt.

(* ================================================================== *)
(** ** One task: synchronous segments between awaits *)

Inductive event :=
| Did (e : effect)
| Called {A : Type} (c : call A)
| Returned {A : Type} (c : syscall A) (r : result A)
| Settled {A : Type} (c : call A) (r : result A).

(** Where a suspended task waits: on one promise, on [Promise.all] of
    several, each marked with whether it has fulfilled, or for its turn in
    the microtask queue. *)
Inductive suspended :=
| OnCall {A : Type} (c : call A) (k : result A -> prog unit)
| OnAll (cs : list (call unit * bool)) (k : result unit -> prog unit)
| OnTurn (k : prog unit).

Inductive status :=
| Finished
| Uncaught (message : jsstring)
| Blocked (s : suspended).

Record segment := {
  after : globals;
  emitted : list event;
  state : status
}.

Definition emit (e : event) (s : segment) : segment :=
  {| after := after s; emitted := e :: emitted s; state := state s |}.

(** Run a task until it finishes or reaches its next await. *)
Fixpoint run (os : oracle) (p : prog unit) (g : globals) : segment :=
  match p with
  | Ret _ => {| after := g; emitted := []; state := Finished |}
  | Throw m => {| after := g; emitted := []; state := Uncaught m |}
  | Get k => run os (k g) g
  | Put g' k => run os k g'
  | Do e k => emit (Did e) (run os k g)
  | Sys c k => let r := os _ c in emit (Returned c r) (run os (k r) g)
  | Await c k =>
      {| after := g; emitted := [Called c]; state := Blocked (OnCall c k) |}
  | AwaitAll [] k => run os (k (Resolved tt)) g
  | AwaitAll cs k =>
      {| after := g;
         emitted := map (fun c => Called c) cs;
         state := Blocked (OnAll (map (fun c => (c, false)) cs) k) |}
  | Yield k => {| after := g; emitted := []; state := Blocked (OnTurn k) |}
  end.

(** What the outside world answers to a pending call. *)
Inductive value :=
| VUndefined
| VBrowser (b : handle)
| VPage (p : page)
| VBoolean (b : bool)
| VElement (el : option elem)
| VString (s : jsstring).

Inductive answer :=
| Fulfil (v : value)
| Reject (message : jsstring).

(** The answer read at the type the call resolves to. *)
Definition coerce {A : Type} (c : call A) (a : answer) : option (result A) :=
  match a with
  | Reject m => Some (Rejected m)
  | Fulfil v =>
      match c in call T return option (result T) with
      | Launch =>
          match v with VBrowser b => Some (Resolved b) | _ => None end
      | NewPage _ =>
          match v with VPage p => Some (Resolved p) | _ => None end
      | EvaluateIsPageLoaded _ =>
          match v with VBoolean b => Some (Resolved b) | _ => None end
      | Query _ _ =>
          match v with VElement el => Some (Resolved el) | _ => None end
      | EvaluateOuterHTML _ _ | Content _ | Title _ =>
          match v with VString s => Some (Resolved s) | _ => None end
      | _ =>
          match v with VUndefined => Some (Resolved tt) | _ => None end
      end
  end.

(** Resume a suspended task on the settlement of the promise it waits for
    (the [i]-th one of a [Promise.all]), with the module variables as they
    are found at that moment.  A [Promise.all] resumes when its last member
    fulfils, or at once when a member rejects.  A task that waits for its
    turn just goes on, whatever the answer. *)
Definition resume (os : oracle) (s : suspended) (i : nat) (a : answer)
    (g : globals) : option segment :=
  match s with
  | OnCall c k =>
      r ← coerce c a;
      Some (emit (Settled c r) (run os (k r) g))
  | OnAll cs k =>
      match cs !! i with
      | Some (c, false) =>
          r ← coerce c a;
          match r with
          | Rejected m => Some (emit (Settled c r) (run os (k (Rejected m)) g))
          | Resolved _ =>
              let cs' := <[i := (c, true)]> cs in
              if forallb snd cs'
              then Some (emit (Settled c r) (run os (k (Resolved tt)) g))
              else Some {| after := g; emitted := [Settled c r];
                           state := Blocked (OnAll cs' k) |}
          end
      | _ => None
      end
  | OnTurn k => Some (run os k g)
  end.

(** The life of one task among others.  At each resumption the task finds
    the module variables as it left them ([found = None]) or as another task
    set them in the meantime ([found = Some g]). *)
Record input := {
  found : option globals;
  world : oracle;
  index : nat;
  reply : answer
}.

(** [s] followed by the next segment [s']. *)
Definition extend (s s' : segment) : segment :=
  {| after := after s'; emitted := emitted s ++ emitted s'; state := state s' |}.

(** Answers that do not fit what the task waits for are passed over. *)
Fixpoint drive (seg : segment) (ins : list input) : segment :=
  match ins with
  | [] => seg
  | i :: rest =>
      match state seg with
      | Blocked s =>
          match resume (world i) s (index i) (reply i)
                       (default (after seg) (found i)) with
          | Some seg' => drive (extend seg seg') rest
          | None => drive seg rest
          end
      | _ => seg
      end
  end.

(** A task from its start: the variables it leaves, all its events, and
    whether it has finished. *)
Definition life (os : oracle) (p : prog unit) (g : globals) (ins : list input)
    : segment :=
  drive (run os p g) ins.

(* ================================================================== *)
(** ** The event loop *)

Inductive origin :=
| FromRequest (r : request)
| FromStartup
| FromDisconnect (b : handle) (dir : N).

Inductive entry :=
| Spawned (o : origin)
| Event (e : event).

Record system := {
  vars : globals;
  listeners : list (handle * N);
  pool : gmap nat suspended;
  fresh : nat;
  history : list (nat * entry)
}.

Definition boot : system :=
  {| vars := absent; listeners := []; pool := ∅; fresh := 0; history := [] |}.

Fixpoint registered (evs : list event) : list (handle * N) :=
  match evs with
  | [] => []
  | Did (OnDisconnected b d) :: rest => (b, d) :: registered rest
  | _ :: rest => registered rest
  end.

Definition commit (s : system) (tid : nat) (pre : list (nat * entry))
    (seg : segment) : system :=
  {| vars := after seg;
     listeners := listeners s ++ registered (emitted seg);
     pool := match state seg with
             | Blocked b => <[tid := b]> (pool s)
             | _ => delete tid (pool s)
             end;
     fresh := Nat.max (fresh s) (S tid);
     history := history s ++ pre ++ map (fun e => (tid, Event e)) (emitted seg) |}.

Definition spawn (s : system) (o : origin) (os : oracle) (p : prog unit)
    : system :=
  commit s (fresh s) [(fresh s, Spawned o)] (run os p (vars s)).

Inductive label :=
| Arrive (r : request) (os : oracle)
| Startup (os : oracle)
| Disconnect (b : handle) (dir : N) (os : oracle)
| Settle (tid : nat) (i : nat) (a : answer) (os : oracle).

Section Loop.

Variable lib : libraries.

Definition step (l : label) (s : system) : option system :=
  match l with
  | Arrive r os => Some (spawn s (FromRequest r) os (handler lib r))
  | Startup os => Some (spawn s FromStartup os startServer)
  | Disconnect b d os =>
      if decide ((b, d) ∈ listeners s)
      then Some (spawn s (FromDisconnect b d) os (disconnected d))
      else None
  | Settle tid i a os =>
      susp ← pool s !! tid;
      seg ← resume os susp i a (vars s);
      Some (commit s tid [] seg)
  end.

Fixpoint steps (ls : list label) (s : system) : option system :=
  match ls with
  | [] => Some s
  | l :: rest => s' ← step l s; steps rest s'
  end.

End Loop.

(* ================================================================== *)
(** ** A stand-in for the libraries, to run the handlers on examples *)

Definition is_alpha (c : code_unit) : bool :=
  (65 <=? c) && (c <=? 90) || (97 <=? c) && (c <=? 122).
Definition is_scheme_unit (c : code_unit) : bool :=
  is_alpha c || (48 <=? c) && (c <=? 57)
  || N.eqb c 43 || N.eqb c 45 || N.eqb c 46.

Fixpoint scheme_rest (s : jsstring) : bool :=
  match s with
  | [] => false
  | c :: s' => N.eqb c 58 || is_scheme_unit c && scheme_rest s'
  end.

(** Whether the string starts with [alpha (alnum | + | - | .)* :].  Without
    a base URL, Node's parser rejects every string that does not. *)
Definition has_scheme (s : jsstring) : bool :=
  match s with
  | c :: s' => is_alpha c && scheme_rest s'
  | [] => false
  end.

(** [URL_parse] accepts the strings with a scheme and serializes them
    unchanged; [turndown] hands the markup back. *)
Definition plain : libraries :=
  {| URL_parse := fun s => if has_scheme s then Some s else None;
     turndown := fun html => Resolved html |}.

(** Node calls that all succeed: the clock reads [now], directories exist. *)
Definition calm (now : N) : oracle :=
  fun A c =>
    match c in syscall T return result T with
    | DateNow => Resolved now
    | MkdirSync _ => Resolved tt
    | ExistsSync _ => Resolved true
    | RmSync _ => Resolved tt
    | ProcessUptime => Resolved now
    end.

(* ================================================================== *)
(** ** A program logic for one task *)

(** [tr] in front of the events of [s]. *)
Definition prepend (tr : list event) (s : segment) : segment :=
  {| after := after s; emitted := tr ++ emitted s; state := state s |}.

Section Logic.

(** [rely g g']: what the other tasks may do to the module variables while
    this one is suspended; [mid] must hold of the events so far and the
    variables whenever the task is suspended, [fin] when it is over. *)
Variable rely : globals -> globals -> Prop.
Variable mid : list event -> globals -> Prop.
Variable fin : list event -> globals -> status -> Prop.

(** A [Promise.all] with at most [n] members still to fulfil: any pending
    member may settle next. *)
Fixpoint join_wp (n : nat)
    (post : result unit -> list event -> globals -> Prop)
    (cs : list (call unit * bool)) (tr : list event) (g : globals) : Prop :=
  mid tr g /\
  forall (i : nat) (c : call unit) (r : result unit) (g' : globals),
    cs !! i = Some (c, false) -> rely g g' ->
    match r with
    | Rejected m => post (Rejected m) (tr ++ [Settled c r]) g'
    | Resolved _ =>
        let cs' := <[i := (c, true)]> cs in
        if forallb snd cs' then post (Resolved tt) (tr ++ [Settled c r]) g'
        else match n with
             | O => False
             | S n' => join_wp n' post cs' (tr ++ [Settled c r]) g'
             end
    end.

Fixpoint wp (p : prog unit) (tr : list event) (g : globals) : Prop :=
  match p with
  | Ret _ => fin tr g Finished
  | Throw m => fin tr g (Uncaught m)
  | Get k => wp (k g) tr g
  | Put g' k => wp k tr g'
  | Do e k => wp k (tr ++ [Did e]) g
  | Sys c k => forall r, wp (k r) (tr ++ [Returned c r]) g
  | Await c k =>
      mid (tr ++ [Called c]) g /\
      forall r g', rely g g' -> wp (k r) (tr ++ [Called c; Settled c r]) g'
  | AwaitAll [] k => wp (k (Resolved tt)) tr g
  | AwaitAll cs k =>
      join_wp (length cs) (fun r tr' g' => wp (k r) tr' g')
              (map (fun c => (c, false)) cs)
              (tr ++ map (fun c => Called c) cs) g
  | Yield k => mid tr g /\ forall g', rely g g' -> wp k tr g'
  end.

Definition holds (s : segment) : Prop :=
  match state s with
  | Blocked _ => mid (emitted s) (after s)
  | st => fin (emitted s) (after s) st
  end.

(** The inputs change the variables only as [rely] allows. *)
Fixpoint guided (seg : segment) (ins : list input) : Prop :=
  match ins with
  | [] => True
  | i :: rest =>
      rely (after seg) (default (after seg) (found i)) /\
      match state seg with
      | Blocked s =>
          match resume (world i) s (index i) (reply i)
                       (default (after seg) (found i)) with
          | Some seg' => guided (extend seg seg') rest
          | None => guided seg rest
          end
      | _ => True
      end
  end.

End Logic.

(** No interference at all: the task is the only one running. *)
Definition alone (ins : list input) : Prop :=
  Forall (fun i => found i = None) ins.

(* ================================================================== *)
(** ** Properties of event sequences *)

(** No response is sent. *)
Definition quiet (tr : list event) : Prop :=
  forall r, ~ In (Did (Respond r)) tr.

Inductive kind :=
| KGoto
| KIdle
| KComplete
| KDelay (ms : N)
| KExtract
| KOther.

Definition kind_of {A : Type} (c : call A) : kind :=
  match c with
  | Goto _ _ _ => KGoto
  | WaitForNetworkIdle _ _ _ => KIdle
  | EvaluateReadyState _ => KComplete
  | SetTimeout ms => KDelay ms
  | Query _ _ | EvaluateOuterHTML _ _ | Content _ => KExtract
  | _ => KOther
  end.

Definition fulfilled {A : Type} (r : result A) : bool :=
  match r with
  | Resolved _ => true
  | Rejected _ => false
  end.

(** Where a fetch is with respect to its readiness wait. *)
Inductive phase :=
| Navigating                              (* [goto] has not resolved *)
| Arming (n : nat)                        (* [n] of the three waits are issued *)
| Joining (idle complete delay : bool)    (* which of them have fulfilled *)
| Ready                                   (* all three have *)
| Over.                                   (* the handler has failed *)

Definition joined (idle complete delay : bool) : phase :=
  if idle && complete && delay then Ready else Joining idle complete delay.

(** The readiness wait as a monitor on the events of a fetch.  Until [goto]
    resolves nothing is extracted; when it does, the next events are the
    three waits, issued together, the third a timer of [wt] ms; while they
    are pending the task issues nothing; it goes on when all three have
    fulfilled, and issues nothing more if one rejects. *)
Fixpoint readiness (wt : N) (ph : phase) (tr : list event) : Prop :=
  match tr with
  | [] => True
  | e :: rest =>
      match ph with
      | Navigating =>
          match e with
          | Settled c r =>
              match kind_of c, fulfilled r with
              | KGoto, true => readiness wt (Arming 0) rest
              | _, _ => readiness wt Navigating rest
              end
          | Called c =>
              match kind_of c with
              | KExtract => False
              | _ => readiness wt Navigating rest
              end
          | _ => readiness wt Navigating rest
          end
      | Arming n =>
          match e with
          | Called c =>
              match n, kind_of c with
              | 0%nat, KIdle => readiness wt (Arming 1) rest
              | 1%nat, KComplete => readiness wt (Arming 2) rest
              | 2%nat, KDelay ms =>
                  ms = wt /\ readiness wt (Joining false false false) rest
              | _, _ => False
              end
          | Did _ =>
              match n with
              | 0%nat => readiness wt Over rest
              | _ => False
              end
          | _ => False
          end
      | Joining i c d =>
          match e with
          | Settled k r =>
              match kind_of k, fulfilled r with
              | KIdle, true => readiness wt (joined true c d) rest
              | KComplete, true => readiness wt (joined i true d) rest
              | KDelay _, true => readiness wt (joined i c true) rest
              | _, false => readiness wt Over rest
              | _, _ => False
              end
          | _ => False
          end
      | Ready => True
      | Over =>
          match e with
          | Called _ => False
          | _ => readiness wt Over rest
          end
      end
  end.

(** [next] is what [rest] begins with. *)
Fixpoint begins (next rest : list event) : Prop :=
  match next, rest with
  | [], _ => True
  | x :: next', y :: rest' => x = y /\ begins next' rest'
  | _ :: _, [] => False
  end.

(** Every event for which [after_it] names a continuation is followed by
    exactly these events. *)
Fixpoint follows (after_it : event -> option (list event)) (tr : list event)
    : Prop :=
  match tr with
  | [] => True
  | e :: rest =>
      match after_it e with
      | Some next => begins next rest /\ follows after_it rest
      | None => follows after_it rest
      end
  end.

(** What has to come after a selector wait that timed out (the warning, and
    the handler goes on to its next step) and after a [$] that found no
    element (the whole document is read). *)
Definition selector_next (e : event) : option (list event) :=
  match e with
  | Settled c r =>
      match c in call T return result T -> option (list event) with
      | WaitForSelector p sel _ _ => fun r =>
          match r with
          | Rejected _ =>
              Some [Did (Console Warn (selector_warning sel));
                    Called (EvaluateIsPageLoaded p)]
          | Resolved _ => None
          end
      | Query p _ => fun r =>
          match r with
          | Resolved None => Some [Called (Content p)]
          | _ => None
          end
      | _ => fun _ => None
      end r
  | _ => None
  end.

(** The markup a settlement delivers, when it is one of the two reads. *)
Definition markup_of (e : event) : option jsstring :=
  match e with
  | Settled c r =>
      match c in call T return result T -> option jsstring with
      | EvaluateOuterHTML _ _ | Content _ => fun r =>
          match r with
          | Resolved html => Some html
          | Rejected _ => None
          end
      | _ => fun _ => None
      end r
  | _ => None
  end.

(** Every Markdown body sent is [turndown] of the sanitized markup that was
    read last. *)
Fixpoint converted (lib : libraries) (last : option jsstring)
    (tr : list event) : Prop :=
  match tr with
  | [] => True
  | e :: rest =>
      match e with
      | Did (Respond {| code := _; payload := JMarkdown _ markdown _ |}) =>
          (exists html, last = Some html /\
             turndown lib (sanitizeHtml html) = Resolved markdown)
          /\ converted lib last rest
      | _ =>
          converted lib (match markup_of e with
                         | Some html => Some html
                         | None => last
                         end) rest
      end
  end.

(** The Session invariant on the module variables: both set or both null. *)
Definition paired (g : globals) : Prop :=
  browser g = None <-> browserPage g = None.

(** Labels that start an operation, and labels that continue one. *)
Definition starts (l : label) : bool :=
  match l with
  | Settle _ _ _ _ => false
  | _ => true
  end.

(** How many times [puppeteer.launch] was called. *)
Definition is_launch (e : nat * entry) : bool :=
  match e.2 with
  | Event (Called c) =>
      match c with
      | Launch => true
      | _ => false
      end
  | _ => false
  end.

Definition launches (h : list (nat * entry)) : nat :=
  length (filter (fun e => is_launch e = true) h).

(** The Node calls [initBrowser] makes before the launch succeed. *)
Definition creates (os : oracle) : Prop :=
  exists t, os _ DateNow = Resolved t /\ os _ (MkdirSync t) = Resolved tt.

(** The request body has a [url] that parses. *)
Definition well_formed (lib : libraries) (b : fetch_body) : Prop :=
  truthy (url b) = true /\ is_Some (URL_parse lib (or_empty (url b))).

(** What one fetch has to satisfy whatever the other tasks do: its readiness
    wait for a delay of [wt] ms, and the conversion of what it read. *)
Definition trace_ok (lib : libraries) (wt : N) (tr : list event) : Prop :=
  readiness wt Navigating tr /\ converted lib None tr.

(** Every selector wait is for [sel] to be visible, within 10 s. *)
Fixpoint selector_waits (sel : jsstring) (tr : list event) : Prop :=
  match tr with
  | [] => True
  | Called c :: rest =>
      match c with
      | WaitForSelector _ s t v =>
          (s = sel /\ t = 10000 /\ v = true) /\ selector_waits sel rest
      | _ => selector_waits sel rest
      end
  | _ :: rest => selector_waits sel rest
  end.

Definition selector_ok (sel : jsstring) (tr : list event) : Prop :=
  follows selector_next tr /\ selector_waits sel tr.

(* ================================================================== *)
(** ** The statements of the specification, and examples *)

(** The image syntax in the words of the specification: [![alt](src "title")],
    the title part left out when there is no title. *)
Definition image_markdown (alt src title : jsstring) : jsstring :=
  js "![" ++ alt ++ js "](" ++ src
    ++ match title with
       | [] => []
       | _ => js " " ++ [dquote] ++ title ++ [dquote]
       end
    ++ js ")".

(** [<img src="">] *)
Definition empty_src : element := img [(js "src", [])].

(** [node.removeAttribute(name)] *)
Definition removeAttribute (node : element) (name : jsstring) : element :=
  {| nodeName := nodeName node; attributes := delete name (attributes node) |}.

(** A malformed [url] value: the empty string, or a string [new URL]
    rejects. *)
Definition malformed (lib : libraries) (u : jsstring) : Prop :=
  u = [] \/ URL_parse lib u = None.

(** What the get-markdown handler does with a malformed [url]. *)
Definition rejection (u : jsstring) : list event :=
  match u with
  | [] => [Did (Respond {| code := 400;
                           payload := JError (js "URL is required") |})]
  | _ => [Did (Console Error (js "Error fetching page:" ++ [space]
                                 ++ js "Invalid URL format"));
          Did (Respond {| code := 500;
                          payload := JErrorMessage (js "Failed to process URL")
                                       (js "Invalid URL format") |})]
  end.

(** The request of test 7 in comprehensive-test.js. *)
Definition bad_request : fetch_body :=
  {| url := Some (js "invalid-url"); waitTime := Some 1000; selector := None |}.

Definition fetch_example : fetch_body :=
  {| url := Some (js "https://example.com"); waitTime := None;
     selector := None |}.

Definition selector_example : fetch_body :=
  {| url := Some (js "https://example.com"); waitTime := Some 1000;
     selector := Some (js "#missing") |}.

Definition already_running : response :=
  {| code := 200; payload := JStatus (js "Browser already running") |}.

(** What a failed launch leaves in the events of [initBrowser]. *)
Definition launch_failure (m : jsstring) : list event :=
  [Settled Launch (Rejected m);
   Did (Console Error (js "Error launching browser:" ++ [space] ++ m));
   Did (Console Error (js "Error details:" ++ [space] ++ m))].

Definition tagged (tid : nat) (evs : list event) : list (nat * entry) :=
  map (fun e => (tid, Event e)) evs.

Definition arrival (r : fetch_body * oracle) : label :=
  Arrive (PostMarkdown r.1) r.2.

(** The pool while a single task [tid] runs. *)
Definition only (tid : nat) (st : status) : gmap nat suspended :=
  match st with
  | Blocked b => {[tid := b]}
  | _ => ∅
  end.

(** The program an operation starts. *)
Definition program_of (lib : libraries) (l : label) : prog unit :=
  match l with
  | Arrive r _ => handler lib r
  | Startup _ => startServer
  | Disconnect _ d _ => disconnected d
  | Settle _ _ _ _ => Ret tt
  end.

(** A live session, and a system that holds it. *)
Definition live : globals :=
  {| browser := Some 1%nat; browserPage := Some 2%nat |}.

Definition live_system : system :=
  {| vars := live; listeners := [(1%nat, 0)]; pool := ∅; fresh := 1;
     history := [] |}.

(** An observation of the server after the steps [ls] from [boot]. *)
Definition after_steps {T : Type} (ls : list label) (f : system -> T)
    : option T :=
  f <$> steps plain ls boot.

(** Two fetches arrive while the browser is absent. *)
Definition two_callers : list label :=
  [Arrive (PostMarkdown fetch_example) (calm 1);
   Arrive (PostMarkdown fetch_example) (calm 2)].

(** A start request and a fetch overlap: the launch of the first resolves,
    the fetch finds [browser] set and [browserPage] still null and asks for
    a page of its own; [newPage] then fails for the start request, whose
    [catch] clears both variables, and succeeds for the fetch, which stores
    its page and goes on until its navigation fails. *)
Definition overlap : list label :=
  [Arrive StartBrowser (calm 1);
   Settle 0%nat 0%nat (Fulfil (VBrowser 1%nat)) (calm 2);
   Arrive (PostMarkdown fetch_example) (calm 3);
   Settle 0%nat 0%nat (Reject (js "Protocol error")) (calm 4);
   Settle 0%nat 0%nat (Fulfil VUndefined) (calm 5);
   Settle 1%nat 0%nat (Fulfil (VPage 7%nat)) (calm 6);
   Settle 1%nat 0%nat (Fulfil VUndefined) (calm 7);
   Settle 1%nat 0%nat (Fulfil VUndefined) (calm 8);
   Settle 1%nat 0%nat (Reject (js "net::ERR_NAME_NOT_RESOLVED")) (calm 9)].

(** A start request whose launch fails, on its own. *)
Definition failed_start : list label :=
  [Arrive StartBrowser (calm 1);
   Settle 0%nat 0%nat (Reject (js "Failed to launch")) (calm 2);
   Settle 0%nat 0%nat (Fulfil VUndefined) (calm 3)].

(** An answer to the task when no other task has run. *)
Definition undisturbed (i : nat) (a : answer) : input :=
  {| found := None; world := calm 0; index := i; reply := a |}.

(** A fetch with a selector that never shows and matches nothing: the
    three waits fulfil, the selector wait times out, [$] finds no element,
    the document is read. *)
Definition selector_missing : list input :=
  [undisturbed 0 (Fulfil VUndefined);
   undisturbed 0 (Fulfil VUndefined);
   undisturbed 0 (Fulfil VUndefined);
   undisturbed 2 (Fulfil VUndefined);
   undisturbed 0 (Fulfil VUndefined);
   undisturbed 1 (Fulfil VUndefined);
   undisturbed 0 (Fulfil VUndefined);
   undisturbed 0 (Reject (js "Waiting for selector failed"));
   undisturbed 0 (Fulfil (VBoolean true));
   undisturbed 0 (Fulfil (VElement None));
   undisturbed 0 (Fulfil (VString (js "<h1>Example</h1>")));
   undisturbed 0 (Fulfil (VString (js "Example Domain")))].

(* ================================================================== *)
(** ** The tasks of a server, read off its history *)

(** The events of task [tid] in a history, and what it was spawned for. *)
Definition events_of (tid : nat) (h : list (nat * entry)) : list event :=
  omap (fun e => if decide (e.1 = tid)
                 then match e.2 with Event ev => Some ev | Spawned _ => None end
                 else None) h.

Definition origins_of (tid : nat) (h : list (nat * entry)) : list origin :=
  omap (fun e => if decide (e.1 = tid)
                 then match e.2 with Spawned o => Some o | Event _ => None end
                 else None) h.

Definition origin_of (l : label) : origin :=
  match l with
  | Arrive r _ => FromRequest r
  | Disconnect b d _ => FromDisconnect b d
  | _ => FromStartup
  end.

Definition waiting (st : status) : option suspended :=
  match st with
  | Blocked b => Some b
  | _ => None
  end.

(** Task [tid] of the server [s] is a life of the program of some
    operation: its events are those of the life, and it is in the pool
    exactly when the life is suspended. *)
Definition is_life (lib : libraries) (s : system) (tid : nat) : Prop :=
  exists l os g ins,
    starts l = true
    /\ origins_of tid (history s) = [origin_of l]
    /\ events_of tid (history s)
       = emitted (life os (program_of lib l) g ins)
    /\ pool s !! tid = waiting (state (life os (program_of lib l) g ins)).

Definition tracked (lib : libraries) (s : system) : Prop :=
  (forall e, e ∈ history s -> (e.1 < fresh s)%nat)
  /\ (forall tid, (fresh s <= tid)%nat -> pool s !! tid = None)
  /\ (forall tid, (tid < fresh s)%nat -> is_life lib s tid).

(** Executions in which the operations follow one another: each starts when
    no task is left and runs to its end before the next starts. *)
Inductive serial (lib : libraries) : system -> Prop :=
| serial_boot : serial lib boot
| serial_operation s l ls s' :
    serial lib s ->
    starts l = true -> Forall (fun l => starts l = false) ls ->
    steps lib (l :: ls) s = Some s' -> pool s' = ∅ ->
    serial lib s'.

(** The browser in [browser] has its 'disconnected' listener registered. *)
Definition watched (s : system) : Prop :=
  forall b, browser (vars s) = Some b -> exists d, (b, d) ∈ listeners s.

(* ================================================================== *)
(** ** The conduct of a task *)

Fixpoint count (f : event -> bool) (tr : list event) : nat :=
  match tr with
  | [] => 0
  | e :: rest => ((if f e then 1 else 0) + count f rest)%nat
  end.

Definition is_response (e : event) : bool :=
  match e with
  | Did (Respond _) => true
  | _ => false
  end.

Definition is_call (e : event) : bool :=
  match e with
  | Called _ => true
  | _ => false
  end.

Definition is_launch_call (e : event) : bool :=
  match e with
  | Called c => match c with Launch => true | _ => false end
  | _ => false
  end.

Definition is_newPage (e : event) : bool :=
  match e with
  | Called c => match c with NewPage _ => true | _ => false end
  | _ => false
  end.

Definition is_close (e : event) : bool :=
  match e with
  | Called c => match c with Close _ => true | _ => false end
  | _ => false
  end.

(** What a task may do, by what it was started for: how many responses it
    owes, and how many times it may call [puppeteer.launch] and
    [browser.close]. *)
Definition owes (o : origin) : nat :=
  match o with
  | FromRequest _ => 1
  | _ => 0
  end.

Definition may_launch (o : origin) : nat :=
  match o with
  | FromRequest GetStatus | FromRequest StopBrowser => 0
  | _ => 1
  end.

Definition may_close (o : origin) : nat :=
  match o with
  | FromRequest StopBrowser => 1
  | _ => 0
  end.

(** The conduct of a task started for [o], as a check on its events: it
    has sent no response before it is over and the one it owes when it is,
    and it has called [puppeteer.launch] and [browser.close] no more often
    than it may. *)
Definition conduct (o : origin) (over : bool) (tr : list event) : bool :=
  Nat.eqb (count is_response tr) (if over then owes o else 0%nat)
  && Nat.leb (count is_launch_call tr) (may_launch o)
  && Nat.leb (count is_close tr) (may_close o).

(** [process.uptime()] threw. *)
Definition uptime_failed (tr : list event) : Prop :=
  exists m, In (Returned ProcessUptime (Rejected m)) tr.

Definition pending (o : origin) (tr : list event) : Prop :=
  conduct o false tr = true.

(** A task that is over has finished, or is a status request whose
    [process.uptime()] threw before the answer. *)
Definition done_with (o : origin) (tr : list event) (st : status) : Prop :=
  st = Finished /\ conduct o true tr = true
  \/ o = FromRequest GetStatus /\ uptime_failed tr
     /\ conduct o false tr = true.

(* ================================================================== *)
(** ** What a fetch answers *)

(** The title a settlement delivers, when it is that of [page.title()]. *)
Definition title_of (e : event) : option jsstring :=
  match e with
  | Settled c r =>
      match c in call T return result T -> option jsstring with
      | Title _ => fun r =>
          match r with
          | Resolved t => Some t
          | Rejected _ => None
          end
      | _ => fun _ => None
      end r
  | _ => None
  end.

(** The answers of the get-markdown handler to the request body [b], given
    the title read last and the event before the answer. *)
Definition fetch_answer (lib : libraries) (b : fetch_body)
    (title : option jsstring) (prev : option event) (r : response) : Prop :=
  match payload r with
  | JMarkdown u _ t =>
      code r = 200 /\ URL_parse lib (or_empty (url b)) = Some u
      /\ title = Some t
  | JErrorMessage e m =>
      code r = 500 /\ e = js "Failed to process URL"
      /\ prev = Some (Did (Console Error
                             (js "Error fetching page:" ++ [space] ++ m)))
  | JError e =>
      code r = 400 /\ e = js "URL is required"
      \/ code r = 500 /\ e = js "Failed to start browser"
  | _ => False
  end.

(** Every navigation is to the serialized [url] of the request, with a
    timeout of 60 s, and every answer is one of [fetch_answer]. *)
Fixpoint reported (lib : libraries) (b : fetch_body)
    (title : option jsstring) (prev : option event) (tr : list event)
    : Prop :=
  match tr with
  | [] => True
  | e :: rest =>
      match e with
      | Did (Respond r) =>
          fetch_answer lib b title prev r
          /\ reported lib b title (Some e) rest
      | Called c =>
          match c with
          | Goto _ u t =>
              (URL_parse lib (or_empty (url b)) = Some u /\ t = 60000)
              /\ reported lib b title (Some e) rest
          | _ => reported lib b title (Some e) rest
          end
      | _ =>
          reported lib b (match title_of e with
                          | Some t => Some t
                          | None => title
                          end) (Some e) rest
      end
  end.

(** The call that reads the markup: [$] with the selector when there is
    one, [content] otherwise. *)
Definition extraction (sel : option jsstring) (p : page) : event :=
  if truthy sel then Called (Query p (or_empty sel)) else Called (Content p).

Definition not_loaded_warning : event :=
  Did (Console Warn
         (js "Page may not be fully loaded, waiting additional time...")).

(** What the events after [e] have to begin with, for the steps of a fetch
    from the page-loaded check on: the check, when it fails, is followed by
    the warning and a timer of 5 s, and by the extraction when it succeeds;
    an element found by [$] is read by [outerHTML]; and the markup read is
    converted, after which the title is asked for, or the failure of the
    conversion is logged and answered. *)
Definition stage_after (lib : libraries) (sel : option jsstring) (e : event)
    : option (list event -> Prop) :=
  match e with
  | Settled c r =>
      match c in call T return result T -> option (list event -> Prop) with
      | EvaluateIsPageLoaded p => fun r =>
          match r with
          | Resolved false =>
              Some (begins [not_loaded_warning; Called (SetTimeout 5000)])
          | Resolved true => Some (begins [extraction sel p])
          | Rejected _ => None
          end
      | Query p _ => fun r =>
          match r with
          | Resolved (Some el) => Some (begins [Called (EvaluateOuterHTML p el)])
          | _ => None
          end
      | EvaluateOuterHTML p _ | Content p => fun r =>
          match r with
          | Resolved html =>
              Some (fun rest =>
                match turndown lib (sanitizeHtml html) with
                | Resolved _ => begins [Called (Title p)] rest
                | Rejected m =>
                    begins [Did (Console Error
                                   (js "Error fetching page:" ++ [space] ++ m));
                            Did (Respond
                                   {| code := 500;
                                      payload := JErrorMessage
                                        (js "Failed to process URL") m |})]
                           rest
                end)
          | Rejected _ => None
          end
      | _ => fun _ => None
      end r
  | _ => None
  end.

Fixpoint staged (lib : libraries) (sel : option jsstring) (tr : list event)
    : Prop :=
  match tr with
  | [] => True
  | e :: rest =>
      match stage_after lib sel e with
      | Some next => next rest /\ staged lib sel rest
      | None => staged lib sel rest
      end
  end.

(* ================================================================== *)
(** ** Sessions *)

(** The browser an operation leaves in [browser] is the one it found there,
    or one it has registered the 'disconnected' listener for. *)
Definition session_of (g : globals) (tr : list event) (g' : globals) : Prop :=
  match browser g' with
  | None => True
  | Some b' => browser g = Some b' \/ exists d, In (b', d) (registered tr)
  end.

(** An operation that found a session left it as it was, and has neither
    launched a browser nor opened a page. *)
Definition reuses (g : globals) (tr : list event) (g' : globals) : Prop :=
  match browser g, browserPage g with
  | Some _, Some _ =>
      g' = g /\ (count is_launch_call tr + count is_newPage tr = 0)%nat
  | _, _ => True
  end.

(** [initBrowser] has succeeded: the variables hold the browser launched and
    the page opened in it, and the listener is registered for that browser
    and the directory made for it. *)
Definition launched (tr : list event) (g' : globals) : Prop :=
  exists b p d,
    g' = {| browser := Some b; browserPage := Some p |}
    /\ In (Returned DateNow (Resolved d)) tr
    /\ In (Returned (MkdirSync d) (Resolved tt)) tr
    /\ In (Settled Launch (Resolved b)) tr
    /\ In (Settled (NewPage b) (Resolved p)) tr
    /\ registered tr = [(b, d)].

Definition started : response :=
  {| code := 200; payload := JStatus (js "Browser started successfully") |}.
Definition not_started : response :=
  {| code := 500; payload := JError (js "Failed to start browser") |}.
Definition not_running : response :=
  {| code := 200; payload := JStatus (js "Browser not running") |}.
Definition stopped : response :=
  {| code := 200; payload := JStatus (js "Browser stopped successfully") |}.
Definition stop_failed (m : jsstring) : response :=
  {| code := 500; payload := JError (js "Failed to stop browser: " ++ m) |}.

(** How a start request that found no browser ends. *)
Definition start_outcome (tr : list event) (g' : globals) : Prop :=
  last tr = Some (Did (Respond started)) /\ launched tr g'
  \/ last tr = Some (Did (Respond not_started)) /\ g' = absent.

(** Where a stop request waits: on [browser.close()], inside its [try]. *)
Definition closing (b : handle) : suspended :=
  OnCall (Close b)
    (fun r => try_catch
       (settle r ;; assign_browser None ;; assign_browserPage None ;;
        respond 200 (JStatus (js "Browser stopped successfully")))
       (fun error =>
          respond 500 (JError (js "Failed to stop browser: " ++ error)))).

(** The text of a status answer. *)
Definition status_text (g : globals) : jsstring :=
  match browser g with
  | Some _ => js "Browser running"
  | None => js "Browser not running"
  end.

(** A start request that succeeds, on its own: as steps of the server, and
    as the answers to its task. *)
Definition good_start : list label :=
  [Arrive StartBrowser (calm 1);
   Settle 0%nat 0%nat (Fulfil (VBrowser 1%nat)) (calm 2);
   Settle 0%nat 0%nat (Fulfil (VPage 2%nat)) (calm 3);
   Settle 0%nat 0%nat (Fulfil VUndefined) (calm 4);
   Settle 0%nat 0%nat (Fulfil VUndefined) (calm 5);
   Settle 0%nat 0%nat (Fulfil VUndefined) (calm 6);
   Settle 0%nat 0%nat (Fulfil VUndefined) (calm 7)].

Definition launch_fulfilled : list input :=
  [undisturbed 0 (Fulfil (VBrowser 1%nat));
   undisturbed 0 (Fulfil (VPage 2%nat));
   undisturbed 0 (Fulfil VUndefined);
   undisturbed 0 (Fulfil VUndefined);
   undisturbed 0 (Fulfil VUndefined);
   undisturbed 0 (Fulfil VUndefined)].

(* ================================================================== *)
(** ** What [initBrowser] and the listener ask of Node *)

Definition is_rmSync (e : event) : bool :=
  match e with
  | Returned c _ => match c with RmSync _ => true | _ => false end
  | _ => false
  end.

Definition is_warning (e : event) : bool :=
  match e with
  | Did (Console Warn _) => true
  | _ => false
  end.

Definition cleanup_warning (m : jsstring) : event :=
  Did (Console Warn (js "Cleanup warning:" ++ [space] ++ m)).

(** What the listener's cleanup leaves in its events, by what Node answers
    for [dir]: the directory is removed when it exists, and only then; a
    failure of either call is logged as a warning. *)
Definition cleanup (os : oracle) (dir : N) (tr : list event) : Prop :=
  match os _ (ExistsSync dir) with
  | Resolved true =>
      count is_rmSync tr = 1%nat
      /\ In (Returned (RmSync dir) (os _ (RmSync dir))) tr
      /\ match os _ (RmSync dir) with
         | Resolved _ => count is_warning tr = 0%nat
         | Rejected m => In (cleanup_warning m) tr
         end
  | Resolved false => count is_rmSync tr = 0%nat /\ count is_warning tr = 0%nat
  | Rejected m => count is_rmSync tr = 0%nat /\ In (cleanup_warning m) tr
  end.

Definition launch_error (m : jsstring) : event :=
  Did (Console Error (js "Error launching browser:" ++ [space] ++ m)).

(** The first segment of a task that enters [initBrowser] with the
    variables [g], by what Node answers: [puppeteer.launch] is called, and
    nothing else, when the directory is made; otherwise the error is logged,
    both variables are null and nothing is called. *)
Definition init_begins (os : oracle) (g : globals) (s : segment) : Prop :=
  match os _ DateNow with
  | Resolved t =>
      match os _ (MkdirSync t) with
      | Resolved _ =>
          after s = g /\ last (emitted s) = Some (Called Launch)
          /\ count is_call (emitted s) = 1%nat
      | Rejected m =>
          after s = absent /\ count is_call (emitted s) = 0%nat
          /\ In (launch_error m) (emitted s)
      end
  | Rejected m =>
      after s = absent /\ count is_call (emitted s) = 0%nat
      /\ In (launch_error m) (emitted s)
  end.

(* ================================================================== *)
(** ** Tactics: symbolic execution of a program under [wp] *)

(** [wp_run] runs the program at the head of a [wp] goal: it reduces to the
    next await, splits on what the program is stuck on (a variable of the
    module, an answer, a condition of the request) and goes on in every
    branch, down to the conditions on the events. *)

Ltac head t := lazymatch t with ?f _ => head f | _ => t end.

Ltac split_on x :=
  first [ progress cbn [browser browserPage]
        | lazymatch x with
          | browser ?g => is_var g; destruct g as [? ?]
          | browserPage ?g => is_var g; destruct g as [? ?]
          end
        | is_var x; destruct x
        | lazymatch goal with H : x = _ |- _ => rewrite H end
        | destruct x eqn:? ].

Ltac unstick p :=
  lazymatch p with
  | try_catch ?q ?h =>
      lazymatch q with
      | settle (Rejected ?m) =>
          let q' := eval cbv beta in (h m) in change p with q'
      | Throw ?m => let q' := eval cbv beta in (h m) in change p with q'
      | _ => unstick q
      end
  | bind ?q ?f =>
      lazymatch q with
      | settle (Resolved ?v) =>
          let q' := eval cbv beta in (f v) in change p with q'
      | Ret ?v => let q' := eval cbv beta in (f v) in change p with q'
      | _ => unstick q
      end
  | settle ?x => split_on x
  | match ?x with Some _ => _ | None => _ end => split_on x
  | if ?x then _ else _ => split_on x
  | let _ := _ in _ => cbv zeta
  | _ => let h := head p in unfold h
  end.

Ltac join_case :=
  match goal with
  | H : [] !! _ = Some _ |- _ => discriminate H
  | H : (_ :: _) !! ?i = Some _ |- _ =>
      destruct i; cbn in H; [first [discriminate H | injection H as <-]|]
  | H : _ !! _ = Some _ |- _ => progress cbn in H
  | H : _ = ?g |- _ => is_var g; subst g
  | H : True |- _ => clear H
  end.

Ltac wp_case :=
  first
  [ join_case
  | lazymatch goal with
    | |- wp _ _ _ ?p _ _ => first [progress hnf | unstick p]
    | |- join_wp _ _ _ _ _ _ _ => progress hnf
    | |- _ /\ _ => split
    | |- forall _, _ => intro
    | |- match ?r with Resolved _ => _ | Rejected _ => _ end =>
        destruct r as [[]|?]
    | |- let _ := _ in _ => cbv zeta
    | |- if ?c then _ else _ =>
        let c' := eval cbv in c in
        lazymatch c' with
        | true => change c with true
        | false => change c with false
        end; cbv iota
    end ].

Ltac wp_run := repeat wp_case.

Ltac ask_node os :=
  repeat match goal with
         | H : os ?A ?c = _ |- context [os ?A ?c] => rewrite H; cbn
         | |- context [os ?A ?c] =>
             let r := fresh "r" in
             destruct (os A c) as [r|r] eqn:?; try destruct r; cbn
         end.

Ltac leaf_paired :=
  try exact I; unfold paired in *; cbn in *;
  first [ done | congruence | intuition congruence ].

(** The conditions left at the leaves. *)

Ltac conduct_leaf :=
  first [ reflexivity
        | left; split; reflexivity
        | right; split; [reflexivity|]; split; [|reflexivity];
          eexists; cbn; auto 10 ].

Ltac fetch_leaf :=
  lazymatch goal with
  | |- conduct _ _ _ = true => reflexivity
  | |- _ = _ => reflexivity
  | |- _ => cbn; unfold fetch_answer; cbn;
      repeat split;
      first [ exact I | reflexivity | assumption
            | left; split; reflexivity | right; split; reflexivity ]
  end.

Ltac in_list := cbn; repeat first [left; reflexivity | right].

Ltac session_leaf :=
  try match goal with g : globals |- _ => destruct g as [[?|] [?|]] end;
  unfold session_of, reuses; cbn;
  first [ exact I | left; reflexivity | right; eexists; left; reflexivity
        | split; reflexivity
        | split; [|split; reflexivity];
          first [ exact I | left; reflexivity
                | right; eexists; left; reflexivity] ].

Ltac launched_leaf :=
  repeat match goal with u : unit |- _ => destruct u end;
  do 3 eexists; split; [reflexivity|];
  repeat split; first [reflexivity | in_list].

Ltac outcome_leaf :=
  first
  [ exact I
  | reflexivity
  | match goal with H : browser _ = None |- _ => cbn in H; discriminate H end
  | unfold start_outcome; cbn;
    first [ right; split; reflexivity
          | left; split; [reflexivity|]; launched_leaf ]
  | cbn; first [ right; reflexivity | left; launched_leaf ] ].

Ltac staged_leaf :=
  unfold extraction;
  repeat match goal with
         | H : negb ?x = _ |- _ =>
             is_var x; destruct x; [discriminate H || clear H ..]
         end;
  repeat match goal with
         | H : turndown _ _ = _ |- _ => rewrite H; clear H
         | H : truthy _ = _ |- _ => rewrite H; clear H
         end;
  cbn;
  first [ exact I | repeat split; reflexivity ].

Ltac solo_leaf :=
  lazymatch goal with
  | |- staged _ _ _ => cbn; first [exact I | staged_leaf]
  | |- _ => session_leaf
  end.

(* ================================================================== *)
(** * Proofs *)

(* ------------------------------------------------------------------ *)
(** ** Soundness of the program logic *)

Lemma extend_prepend tr s s' :
  extend (prepend tr s) s' = prepend tr (extend s s').
Proof. unfold extend, prepend; simpl. by rewrite app_assoc. Qed.

Lemma prepend_emit tr e s : prepend tr (emit e s) = prepend (tr ++ [e]) s.
Proof. unfold prepend, emit; simpl. by rewrite <- app_assoc. Qed.

Lemma prepend_nil s : prepend [] s = s.
Proof. by destruct s. Qed.

Lemma extend_emitted s s' : extend s s' = prepend (emitted s) s'.
Proof. reflexivity. Qed.

Lemma drive_over s ins : (forall b, state s <> Blocked b) -> drive s ins = s.
Proof.
  destruct ins as [|i rest]; [done|]. simpl.
  destruct (state s) as [| |b]; [done|done|]. intros H; by destruct (H b).
Qed.

Section Soundness.

Variable rely : globals -> globals -> Prop.
Variable mid : list event -> globals -> Prop.
Variable fin : list event -> globals -> status -> Prop.

Lemma join_sound n post cs k :
  (forall r tr g, post r tr g ->
     forall os ins, guided rely (prepend tr (run os (k r) g)) ins ->
                    holds mid fin (drive (prepend tr (run os (k r) g)) ins)) ->
  forall tr g ins,
    join_wp rely mid n post cs tr g ->
    let s := {| after := g; emitted := tr; state := Blocked (OnAll cs k) |} in
    guided rely s ins -> holds mid fin (drive s ins).
Proof.
  intros Hpost. revert cs.
  induction n as [|n IH]; intros cs tr g ins [Hmid Hstep] s; subst s;
    induction ins as [|i rest IHins]; intros Hg; try exact Hmid;
    simpl in *; destruct Hg as [Hr Hg];
    (destruct (cs !! index i) as [[c [|]]|] eqn:E; [by apply IHins| |by apply IHins]);
    (destruct (coerce c (reply i)) as [r|] eqn:Ec; simpl in *; [|by apply IHins]);
    specialize (Hstep (index i) c r _ E Hr);
    destruct r as [[]|m]; simpl in *.
  - destruct (forallb snd (<[index i:=(c, true)]> cs)); [|done].
    rewrite extend_emitted in *. simpl in *. rewrite prepend_emit in *.
    by apply Hpost.
  - rewrite extend_emitted in *. simpl in *. rewrite prepend_emit in *.
    by apply Hpost.
  - destruct (forallb snd (<[index i:=(c, true)]> cs)).
    + rewrite extend_emitted in *. simpl in *. rewrite prepend_emit in *.
      by apply Hpost.
    + by apply IH.
  - rewrite extend_emitted in *. simpl in *. rewrite prepend_emit in *.
    by apply Hpost.
Qed.

Lemma wp_sound p :
  forall tr g, wp rely mid fin p tr g ->
  forall os ins, guided rely (prepend tr (run os p g)) ins ->
                 holds mid fin (drive (prepend tr (run os p g)) ins).
Proof.
  induction p as [r|m|k IH|g' k IH|e k IH|A c k IH|A c k IH|cs k IH|k IH];
    intros tr g Hwp os ins Hg; simpl in *.
  - rewrite drive_over by done. unfold holds; simpl. by rewrite app_nil_r.
  - rewrite drive_over by done. unfold holds; simpl. by rewrite app_nil_r.
  - by apply IH.
  - by apply IH.
  - rewrite prepend_emit in *. by apply IH.
  - rewrite prepend_emit in *. by apply IH.
  - destruct Hwp as [Hmid Hk].
    induction ins as [|i rest IHins]; [exact Hmid|].
    simpl in *. destruct Hg as [Hr Hg].
    destruct (coerce c (reply i)) as [r|] eqn:Ec; simpl in *;
      [|by apply IHins].
    rewrite extend_emitted in *. simpl in *.
    replace (prepend (tr ++ [Called c])
               (emit (Settled c r)
                  (run (world i) (k r) (default g (found i)))))
      with (prepend (tr ++ [Called c; Settled c r])
              (run (world i) (k r) (default g (found i)))) in *.
    + apply IH; [|done]. by apply Hk.
    + rewrite prepend_emit. by rewrite <- app_assoc.
  - destruct cs as [|c0 cs]; [by apply IH|].
    eapply (join_sound _ _ _ k); [|exact Hwp|exact Hg].
    intros r tr' g'' Hw os' ins' Hg'. by apply IH.
  - destruct Hwp as [Hmid Hk].
    unfold prepend in *; simpl in *. rewrite app_nil_r in *.
    destruct ins as [|i rest]; [exact Hmid|].
    simpl in *. destruct Hg as [Hr Hg].
    rewrite extend_emitted in *. simpl in *.
    apply IH; [by apply Hk|done].
Qed.

End Soundness.

Lemma guided_any seg ins : guided (fun _ _ => True) seg ins.
Proof.
  revert seg. induction ins as [|i rest IH]; intros seg; simpl; [done|].
  split; [done|]. destruct (state seg); try done.
  destruct (resume _ _ _ _ _); apply IH.
Qed.

Lemma guided_alone seg ins : alone ins -> guided eq seg ins.
Proof.
  intros H. revert seg. induction H as [|i rest Hi _ IH]; intros seg; simpl;
    [done|].
  rewrite Hi. simpl. split; [done|]. destruct (state seg); try done.
  destruct (resume _ _ _ _ _); apply IH.
Qed.

(** Whatever the other tasks do. *)
Lemma life_among mid fin p g :
  wp (fun _ _ => True) mid fin p [] g ->
  forall os ins, holds mid fin (life os p g ins).
Proof.
  intros H os ins. unfold life. rewrite <- (prepend_nil (run os p g)).
  apply (wp_sound (fun _ _ => True)); [done|apply guided_any].
Qed.

(** When no other task runs. *)
Lemma life_alone mid fin p g :
  wp eq mid fin p [] g ->
  forall os ins, alone ins -> holds mid fin (life os p g ins).
Proof.
  intros H os ins Hins. unfold life. rewrite <- (prepend_nil (run os p g)).
  apply (wp_sound eq); [done|by apply guided_alone].
Qed.

Lemma holds_both P s :
  holds (fun tr _ => P tr) (fun tr _ _ => P tr) s -> P (emitted s).
Proof. unfold holds. by destruct (state s). Qed.

(* ------------------------------------------------------------------ *)
(** ** Each operation, symbolically *)

(** A fetch among other tasks. *)
Lemma get_markdown_among lib b g :
  wp (fun _ _ => True)
     (fun tr _ => trace_ok lib (default 2000 (waitTime b)) tr)
     (fun tr _ _ => trace_ok lib (default 2000 (waitTime b)) tr)
     (get_markdown lib b) [] g.
Proof.
  wp_run.
  all: unfold trace_ok; cbn.
  all: try exact I.
  all: by intuition eauto.
Qed.

(** The listener among other tasks: it answers nobody and catches all. *)
Lemma disconnected_among d g :
  wp (fun _ _ => True) (fun tr _ => quiet tr)
     (fun tr _ st => quiet tr /\ st = Finished) (disconnected d) [] g.
Proof.
  wp_run.
  all: try reflexivity.
  all: intros r Hin; cbn in Hin; intuition discriminate.
Qed.

Lemma disconnected_alone d g :
  wp eq (fun _ _ => True) (fun _ g' _ => paired g') (disconnected d) [] g.
Proof. wp_run; leaf_paired. Qed.

Lemma startServer_alone g :
  wp eq (fun _ _ => True) (fun _ g' _ => paired g') startServer [] g.
Proof. wp_run; leaf_paired. Qed.

Lemma get_status_alone g :
  paired g ->
  wp eq (fun _ _ => True) (fun _ g' _ => paired g') get_status [] g.
Proof. intros Hg. wp_run; leaf_paired. Qed.

Lemma start_browser_alone g :
  paired g ->
  wp eq (fun _ _ => True) (fun _ g' _ => paired g') start_browser [] g.
Proof. intros Hg. wp_run; leaf_paired. Qed.

Lemma stop_browser_alone g :
  paired g ->
  wp eq (fun _ _ => True) (fun _ g' _ => paired g') stop_browser [] g.
Proof. intros Hg. wp_run; leaf_paired. Qed.

(** A fetch on its own. *)
Lemma get_markdown_alone lib b g :
  wp eq
     (fun tr _ => selector_ok (or_empty (selector b)) tr)
     (fun tr g' _ => selector_ok (or_empty (selector b)) tr
                     /\ (paired g -> paired g'))
     (get_markdown lib b) [] g.
Proof.
  wp_run.
  all: unfold selector_ok; cbn.
  all: try exact I.
  all: try (repeat split; reflexivity).
  all: leaf_paired.
Qed.

(* ------------------------------------------------------------------ *)
(** ** Helper lemmas *)

Lemma or_empty_default v : or_empty v = default [] v.
Proof. by destruct v as [[|c s]|]. Qed.

Lemma replace_class_app cls rep s1 s2 :
  replace_class cls rep (s1 ++ s2)
  = replace_class cls rep s1 ++ replace_class cls rep s2.
Proof. apply flat_map_app. Qed.

Lemma sanitize_unit_two_passes c :
  replace_class (fun c => N.eqb c LS || N.eqb c PS) (js " ")
    (if N.eqb NUL c then [] else [c]) = sanitize_unit c.
Proof.
  unfold sanitize_unit, replace_class.
  rewrite (N.eqb_sym NUL c).
  destruct (N.eqb c NUL) eqn:E0; [done|]. simpl.
  destruct (N.eqb c LS); [done|]. destruct (N.eqb c PS); done.
Qed.

Lemma sanitizeHtml_spec html : sanitizeHtml html = sanitize_spec html.
Proof.
  unfold sanitizeHtml, sanitize_spec.
  induction html as [|c html IH]; [done|].
  change (replace_class (N.eqb NUL) [] (c :: html))
    with ((if N.eqb NUL c then [] else [c])
            ++ replace_class (N.eqb NUL) [] html).
  rewrite replace_class_app, IH, sanitize_unit_two_passes.
  reflexivity.
Qed.

Lemma launches_app h1 h2 :
  launches (h1 ++ h2) = (launches h1 + launches h2)%nat.
Proof. unfold launches. by rewrite filter_app, length_app. Qed.

(** A well-formed fetch that finds no browser calls [puppeteer.launch] and
    waits for it, leaving the variables as they are. *)
Lemma fetch_absent lib b os g tid :
  browser g = None -> well_formed lib b -> creates os ->
  let seg := run os (get_markdown lib b) g in
  after seg = g
  /\ launches (tagged tid (emitted seg)) = 1%nat
  /\ exists s, state seg = Blocked s.
Proof.
  intros Hb [Hu [u' Hp]] (t & Ht & Hm).
  unfold get_markdown, sanitizeUrl, initBrowser. rewrite Hu. cbn.
  rewrite Hp. cbn. rewrite Hb. cbn. ask_node os.
  split; [reflexivity|]. split; [reflexivity|]. eauto.
Qed.

Lemma only_empty tid st : only tid st = ∅ -> forall b, st <> Blocked b.
Proof.
  intros H b ->. simpl in H. by apply map_non_empty_singleton in H.
Qed.

Lemma commit_only s tid pre seg st :
  pool s = only tid st ->
  pool (commit s tid pre seg) = only tid (state seg).
Proof.
  intros Hp. unfold commit; simpl. rewrite Hp.
  destruct st as [| |b]; destruct (state seg) as [| |b']; simpl;
    by rewrite ?insert_empty, ?delete_empty, ?insert_singleton_eq,
               ?delete_singleton_eq.
Qed.

(** While one task is alone in the pool, the steps of the event loop are
    the resumptions of that task, undisturbed. *)
Lemma solo_steps lib ls :
  forall s tid seg s',
    Forall (fun l => starts l = false) ls ->
    vars s = after seg -> pool s = only tid (state seg) ->
    steps lib ls s = Some s' ->
    exists ins, alone ins
      /\ vars s' = after (drive seg ins)
      /\ pool s' = only tid (state (drive seg ins)).
Proof.
  induction ls as [|l ls IH]; intros s tid seg s' Hall Hv Hp Hs.
  - exists []. simpl in *. injection Hs as <-. split; [constructor|done].
  - inversion Hall as [|? ? Hl Hls]; subst.
    destruct l as [| | |tid' i a os]; try discriminate.
    simpl in Hs.
    destruct (pool s !! tid') as [susp|] eqn:Hlook; [|discriminate].
    simpl in Hs.
    destruct (resume os susp i a (vars s)) as [seg'|] eqn:Hres;
      [|discriminate].
    simpl in Hs.
    rewrite Hp in Hlook.
    destruct (state seg) as [| |b] eqn:Hst; simpl in Hlook;
      try (by rewrite lookup_empty in Hlook).
    apply lookup_singleton_Some in Hlook as [<- <-].
    destruct (IH (commit s tid [] seg') tid (extend seg seg') s' Hls)
      as (ins & Hins & Hv' & Hp'); [done| |done|].
    { change (state (extend seg seg')) with (state seg').
      by apply (commit_only _ _ _ _ (Blocked b)). }
    exists ({| found := None; world := os; index := i; reply := a |} :: ins).
    split; [by constructor|].
    simpl. rewrite Hst. simpl. rewrite <- Hv, Hres. done.
Qed.

Lemma finished_paired (R : list event -> Prop) g s :
  holds (fun tr _ => R tr) (fun tr g' _ => R tr /\ (paired g -> paired g')) s \/
  holds (fun _ _ => True) (fun _ g' _ => paired g') s ->
  paired g -> (forall b, state s <> Blocked b) -> paired (after s).
Proof.
  unfold holds. intros H Hg Hb.
  destruct (state s) as [| |b]; [| |by destruct (Hb b)]; intuition.
Qed.

(** Every operation, run on its own from paired variables, leaves them
    paired when it is over. *)
Lemma operation_alone lib l g os ins :
  paired g -> alone ins ->
  let s := life os (program_of lib l) g ins in
  (forall b, state s <> Blocked b) -> paired (after s).
Proof.
  intros Hg Hins s. subst s.
  destruct l as [[| | |b] os'|os'|b d os'|tid i a os']; simpl.
  - apply (finished_paired (fun _ => True) g); [right|done].
    apply life_alone; [by apply get_status_alone|done].
  - apply (finished_paired (fun _ => True) g); [right|done].
    apply life_alone; [by apply start_browser_alone|done].
  - apply (finished_paired (fun _ => True) g); [right|done].
    apply life_alone; [by apply stop_browser_alone|done].
  - apply (finished_paired (selector_ok (or_empty (selector b))) g);
      [left|done].
    apply life_alone; [by apply get_markdown_alone|done].
  - apply (finished_paired (fun _ => True) g); [right|done].
    apply life_alone; [by apply startServer_alone|done].
  - apply (finished_paired (fun _ => True) g); [right|done].
    apply life_alone; [by apply disconnected_alone|done].
  - intros _. unfold life. simpl. by rewrite drive_over.
Qed.

(** The first synchronous segment of the listener ends with both variables
    null. *)
Lemma disconnected_clears d os g : after (run os (disconnected d) g) = absent.
Proof. unfold disconnected, initBrowser. cbn. ask_node os; reflexivity. Qed.

(* ------------------------------------------------------------------ *)
(** ** The monitors tell runs apart *)

(** An extraction while the timer is still pending is refused. *)
Lemma readiness_refuses_early_extraction :
  ~ readiness 1000 Navigating
      [Settled (Goto 2%nat (js "https://example.com/") 60000) (Resolved tt);
       Called (WaitForNetworkIdle 2%nat 60000 5000);
       Called (EvaluateReadyState 2%nat);
       Called (SetTimeout 1000);
       Settled (WaitForNetworkIdle 2%nat 60000 5000) (Resolved tt);
       Settled (EvaluateReadyState 2%nat) (Resolved tt);
       Called (Content 2%nat)].
Proof. simpl. tauto. Qed.

(** A readiness wait without the timer is refused. *)
Lemma readiness_refuses_missing_delay :
  ~ readiness 1000 Navigating
      [Settled (Goto 2%nat (js "https://example.com/") 60000) (Resolved tt);
       Called (WaitForNetworkIdle 2%nat 60000 5000);
       Called (EvaluateReadyState 2%nat);
       Called (Content 2%nat)].
Proof. simpl. tauto. Qed.

(** A failure right after a selector wait that timed out is refused. *)
Lemma follows_refuses_fatal_timeout :
  ~ follows selector_next
      [Settled (WaitForSelector 2%nat (js "#missing") 10000 true)
               (Rejected (js "Waiting for selector failed"));
       Did (Respond {| code := 500;
                       payload := JErrorMessage (js "Failed to process URL")
                                    (js "Waiting for selector failed") |})].
Proof. simpl. intros [[H _] _]. discriminate H. Qed.

(** Markdown made from markup that was not sanitized is refused. *)
Lemma converted_refuses_raw_markup :
  ~ converted plain None
      [Settled (Content 2%nat) (Resolved [NUL]);
       Did (Respond {| code := 200;
                       payload := JMarkdown (js "https://example.com/") [NUL]
                                    (js "Example Domain") |})].
Proof. simpl. intros [(html & H1 & H2) _]. injection H1 as <-. discriminate H2. Qed.

(* ------------------------------------------------------------------ *)
(** ** The claims *)

(** C1 (as amended).  A malformed [url] — the empty string, or a string
    [new URL] rejects — ends the get-markdown handler in its first
    synchronous segment, before any call to the browser: the variables are
    untouched and the only events are the answer, 400 "URL is required" for
    the empty string and 500 "Failed to process URL" / "Invalid URL format"
    for a string that does not parse. *)
Theorem C1_malformed_url lib b u os g :
  url b = Some u -> malformed lib u ->
  run os (get_markdown lib b) g
  = {| after := g; emitted := rejection u; state := Finished |}.
Proof.
  intros Hu Hm. unfold get_markdown, sanitizeUrl. rewrite Hu.
  destruct u as [|c u]; [reflexivity|].
  destruct Hm as [Hm|Hm]; [discriminate|].
  cbn. rewrite Hm. reflexivity.
Qed.

Lemma C1_malformed_url_witness :
  url bad_request = Some (js "invalid-url")
  /\ malformed plain (js "invalid-url")
  /\ run (calm 0) (get_markdown plain bad_request) absent
     = {| after := absent; emitted := rejection (js "invalid-url");
          state := Finished |}.
Proof.
  split; [reflexivity|]. split; [right; reflexivity|].
  apply (C1_malformed_url plain bad_request (js "invalid-url") (calm 0) absent);
    [reflexivity|right; reflexivity].
Defined.

(** C1 as stated fails: ['invalid-url'] is a non-empty string that does not
    parse, and the handler answers it with status 500, not 400. *)
Lemma C1_counterexample :
  malformed plain (js "invalid-url") /\
  emitted (run (calm 0) (get_markdown plain bad_request) absent)
  = [Did (Console Error (js "Error fetching page: Invalid URL format"));
     Did (Respond {| code := 500;
                     payload := JErrorMessage (js "Failed to process URL")
                                  (js "Invalid URL format") |})].
Proof. split; [right|]; reflexivity. Qed.


(** C3 (as amended).  The image rule yields [![alt](src "title")], the title
    part left out when the title is absent or empty and [alt] defaulting to
    the empty string, when [src] is present and not empty; it yields the
    empty string when [src] is absent or empty.  [<img src="a.png" alt="x">]
    gives [![x](a.png)] and [<img alt="x">] gives the empty string. *)
Theorem C3_image_rule :
  (forall content node,
     match getAttribute node (js "src") with
     | Some (c :: s) =>
         preserveImages_replacement content node =
         image_markdown (default [] (getAttribute node (js "alt"))) (c :: s)
                        (default [] (getAttribute node (js "title")))
     | _ => preserveImages_replacement content node = []
     end)
  /\ preserveImages_replacement []
       (img [(js "src", js "a.png"); (js "alt", js "x")]) = js "![x](a.png)"
  /\ preserveImages_replacement [] (img [(js "alt", js "x")]) = [].
Proof.
  split; [|split; reflexivity].
  intros content node.
  unfold preserveImages_replacement, image_markdown.
  rewrite !or_empty_default.
  destruct (getAttribute node (js "src")) as [[|c s]|]; simpl; try done.
  by destruct (default [] (getAttribute node (js "title"))).
Qed.

(** C3 as stated fails: [<img src="">] has a [src] attribute, and the rule
    yields the empty string for it, not [![]()]. *)
Lemma C3_counterexample :
  getAttribute empty_src (js "src") = Some []
  /\ preserveImages_replacement [] empty_src = []
  /\ preserveImages_replacement [] empty_src <> image_markdown [] [] [].
Proof. split; [reflexivity|]. split; [reflexivity|]. discriminate. Qed.

(** C4.  [sanitizeHtml] drops every NUL, turns every U+2028 and U+2029 into
    one space and keeps every other code unit; and every Markdown body the
    get-markdown handler sends is [turndown] of the sanitized markup it read
    last. *)
Theorem C4_sanitize_before_conversion :
  (forall html, sanitizeHtml html = sanitize_spec html)
  /\ (forall lib b os g ins,
        converted lib None (emitted (life os (get_markdown lib b) g ins)))
  /\ sanitizeHtml ([NUL] ++ js "a" ++ [LS] ++ js "b" ++ [PS]) = js "a b ".
Proof.
  split; [exact sanitizeHtml_spec|]. split; [|reflexivity].
  intros lib b os g ins.
  pose proof (life_among _ _ _ _ (get_markdown_among lib b g) os ins) as H.
  by apply holds_both in H as [_ H].
Qed.

(** C5 (as amended).  When N well-formed fetches arrive while [browser] is
    null, before any launch settles, every one of them calls
    [puppeteer.launch]: N launches, one for each caller, and the variables
    stay null until a launch settles. *)
Theorem C5_one_launch_per_caller lib (reqs : list (fetch_body * oracle)) s :
  browser (vars s) = None ->
  Forall (fun r => well_formed lib r.1 /\ creates r.2) reqs ->
  exists s', steps lib (map arrival reqs) s = Some s'
    /\ vars s' = vars s
    /\ launches (history s') = (launches (history s) + length reqs)%nat.
Proof.
  intros Hb Hall. revert s Hb.
  induction Hall as [|[b os] reqs [Hw Hc] _ IH]; intros s Hb.
  - exists s. simpl. split; [done|]. split; [done|lia].
  - destruct (fetch_absent lib b os (vars s) (fresh s) Hb Hw Hc)
      as (Hafter & Hone & susp & Hstate).
    simpl in *.
    set (s1 := spawn s (FromRequest (PostMarkdown b)) os (get_markdown lib b)).
    assert (Hv : vars s1 = vars s) by exact Hafter.
    destruct (IH s1) as (s' & Hsteps & Hvars & Hl).
    { by rewrite Hv. }
    exists s'. split; [exact Hsteps|]. split; [congruence|].
    rewrite Hl. unfold s1, spawn, commit; cbn [history].
    rewrite !launches_app.
    fold (tagged (fresh s) (emitted (run os (get_markdown lib b) (vars s)))).
    rewrite Hone. unfold launches at 2. simpl. lia.
Qed.

Lemma C5_one_launch_per_caller_witness :
  browser (vars boot) = None
  /\ Forall (fun r => well_formed plain r.1 /\ creates r.2)
            [(fetch_example, calm 1); (fetch_example, calm 2)]
  /\ exists s',
       steps plain
             (map arrival [(fetch_example, calm 1); (fetch_example, calm 2)])
             boot = Some s'
       /\ vars s' = vars boot
       /\ launches (history s') = (launches (history boot) + 2)%nat.
Proof.
  assert (H : Forall (fun r => well_formed plain r.1 /\ creates r.2)
                     [(fetch_example, calm 1); (fetch_example, calm 2)]).
  { repeat constructor; try (eexists; reflexivity).
    - exists 1. split; reflexivity.
    - exists 2. split; reflexivity. }
  split; [reflexivity|]. split; [exact H|].
  apply (C5_one_launch_per_caller plain
           [(fetch_example, calm 1); (fetch_example, calm 2)] boot);
    [reflexivity|exact H].
Defined.

(** C5 as stated fails: two fetches that arrive while the browser is absent
    call [puppeteer.launch] twice, and both wait for a launch of their
    own. *)
Lemma C5_counterexample :
  after_steps two_callers
    (fun s => (vars s, size (pool s), launches (history s)))
  = Some (absent, 2%nat, 2%nat).
Proof. vm_compute. reflexivity. Qed.

(** C6 (as amended).  An operation — a request, the startup, the handling of
    a disconnection — that starts when no other is in flight and [browser]
    and [browserPage] are both set or both null, and that runs to its end
    with no other operation started meanwhile, leaves them both set or both
    null. *)
Theorem C6_session_invariant lib s l ls s' :
  pool s = ∅ -> paired (vars s) ->
  starts l = true -> Forall (fun l => starts l = false) ls ->
  steps lib (l :: ls) s = Some s' ->
  pool s' = ∅ -> paired (vars s').
Proof.
  intros Hp Hg Hl Hls Hs Hp'.
  assert (exists o os, step lib l s
            = Some (spawn s o os (program_of lib l))) as (o & os & Hstep).
  { destruct l as [r os|os|b d os|]; try discriminate; simpl in *.
    - eauto.
    - eauto.
    - destruct (decide ((b, d) ∈ listeners s)); [eauto|discriminate]. }
  simpl in Hs. rewrite Hstep in Hs. simpl in Hs.
  set (seg := run os (program_of lib l) (vars s)) in *.
  destruct (solo_steps lib ls (spawn s o os (program_of lib l)) (fresh s)
              seg s' Hls) as (ins & Hins & Hv & Hq); [done| |done|].
  { unfold spawn. apply (commit_only _ _ _ _ Finished). exact Hp. }
  rewrite Hv.
  change (drive seg ins) with (life os (program_of lib l) (vars s) ins) in *.
  apply (operation_alone lib l (vars s) os ins Hg Hins).
  apply (only_empty (fresh s)). by rewrite <- Hq.
Qed.

Lemma C6_session_invariant_witness :
  pool boot = ∅ /\ paired (vars boot)
  /\ exists s', steps plain failed_start boot = Some s'
       /\ pool s' = ∅ /\ paired (vars s').
Proof.
  assert (H0 : paired (vars boot)) by (unfold paired; simpl; tauto).
  split; [reflexivity|]. split; [exact H0|].
  eexists. split; [vm_compute; reflexivity|].
  split; [vm_compute; reflexivity|].
  apply (C6_session_invariant plain boot
           (Arrive StartBrowser (calm 1))
           [Settle 0%nat 0%nat (Reject (js "Failed to launch")) (calm 2);
            Settle 0%nat 0%nat (Fulfil VUndefined) (calm 3)]).
  - reflexivity.
  - exact H0.
  - reflexivity.
  - repeat constructor.
  - vm_compute. reflexivity.
  - vm_compute. reflexivity.
Defined.

(** C6 as stated fails when operations overlap: after a start request and a
    fetch that interleave as in [overlap], both are over, no task is left,
    and [browser] is null while [browserPage] is set. *)
Lemma C6_counterexample :
  after_steps overlap (fun s => (vars s, size (pool s)))
  = Some ({| browser := None; browserPage := Some 7%nat |}, 0%nat)
  /\ ~ paired {| browser := None; browserPage := Some 7%nat |}.
Proof.
  split; [vm_compute; reflexivity|].
  unfold paired. simpl. intros [H _]. by specialize (H eq_refl).
Qed.

(** C7.  A start request that finds [browser] set ends at once: its only
    event is the answer "Browser already running", it calls nothing, and
    the variables — the same browser — and the listeners are as before. *)
Theorem C7_start_while_live lib s os b :
  browser (vars s) = Some b ->
  run os start_browser (vars s)
  = {| after := vars s; emitted := [Did (Respond already_running)];
       state := Finished |}
  /\ exists s', step lib (Arrive StartBrowser os) s = Some s'
       /\ vars s' = vars s
       /\ browser (vars s') = Some b
       /\ listeners s' = listeners s
       /\ history s' = history s
            ++ [(fresh s, Spawned (FromRequest StartBrowser));
                (fresh s, Event (Did (Respond already_running)))].
Proof.
  intros Hb.
  assert (Hrun : run os start_browser (vars s)
    = {| after := vars s; emitted := [Did (Respond already_running)];
         state := Finished |}).
  { unfold start_browser. cbn. rewrite Hb. reflexivity. }
  split; [exact Hrun|].
  eexists. split; [reflexivity|].
  unfold spawn, commit; cbn [vars listeners history handler].
  rewrite Hrun. cbn. rewrite app_nil_r. done.
Qed.

Lemma C7_start_while_live_witness :
  browser (vars live_system) = Some 1%nat
  /\ run (calm 0) start_browser (vars live_system)
     = {| after := vars live_system;
          emitted := [Did (Respond already_running)]; state := Finished |}.
Proof.
  split; [reflexivity|].
  apply (C7_start_while_live plain live_system (calm 0) 1%nat).
  reflexivity.
Defined.



(** The fetch of [selector_missing] ends with the answer 200 and the
    Markdown of the whole document. *)
Lemma selector_missing_answer :
  last (emitted (life (calm 0) (get_markdown plain selector_example) live
                      selector_missing))
  = Some (Did (Respond {| code := 200;
                          payload := JMarkdown (js "https://example.com")
                                       (js "<h1>Example</h1>")
                                       (js "Example Domain") |})).
Proof. vm_compute. reflexivity. Qed.

(** C9.  The 'disconnected' listener, in its first synchronous segment,
    sets both variables to null and enters [initBrowser], which calls
    [puppeteer.launch] when its directory is created: the step of the event
    loop that fires it leaves the server with both variables null.  In every
    life of the listener no response is sent and no exception escapes; and
    when the launch is rejected the listener logs the error, leaves both
    variables null, and ends at its next turn with no other event. *)
Theorem C9_disconnect_restart d os g :
  let first := run os (disconnected d) g in
  after first = absent
  /\ (forall lib s b s',
        step lib (Disconnect b d os) s = Some s' -> vars s' = absent)
  /\ In (Did (Console Log (js "Launching browser..."))) (emitted first)
  /\ (creates os -> In (Called Launch) (emitted first))
  /\ (forall ins,
        quiet (emitted (life os (disconnected d) g ins))
        /\ forall m, state (life os (disconnected d) g ins) <> Uncaught m)
  /\ (forall i j m, creates os -> reply i = Reject m ->
        after (life os (disconnected d) g [i]) = absent
        /\ state (life os (disconnected d) g [i; j]) = Finished
        /\ emitted (life os (disconnected d) g [i; j])
           = emitted first ++ launch_failure m).
Proof.
  cbv zeta. split; [|split; [|split; [|split; [|split]]]].
  - apply disconnected_clears.
  - intros lib s b s' Hs. simpl in Hs.
    destruct (decide ((b, d) ∈ listeners s)); [|discriminate].
    injection Hs as <-. apply disconnected_clears.
  - unfold disconnected, initBrowser. cbn. ask_node os; cbn; auto 10.
  - intros (t & Ht & Hm). unfold disconnected, initBrowser. cbn.
    ask_node os; cbn; auto 20.
  - intros ins.
    pose proof (life_among _ _ _ _ (disconnected_among d g) os ins) as H.
    unfold holds in H.
    destruct (state (life os (disconnected d) g ins)); intuition congruence.
  - intros i j m (t & Ht & Hm) Hi.
    unfold life, disconnected, await_async, initBrowser. cbn.
    ask_node os; cbn; rewrite Hi; cbn; repeat split; reflexivity.
Qed.

Lemma C9_disconnect_restart_witness :
  creates (calm 1)
  /\ after (run (calm 1) (disconnected 0) live) = absent
  /\ In (Called Launch) (emitted (run (calm 1) (disconnected 0) live)).
Proof.
  assert (H : creates (calm 1)) by (exists 1; split; reflexivity).
  split; [exact H|].
  pose proof (C9_disconnect_restart 0 (calm 1) live) as (Ha & _ & _ & Hl & _).
  split; [exact Ha|exact (Hl H)].
Defined.

(** C10.  An [img] whose [src] attribute is present and empty yields the
    empty string, as the same element without the attribute does. *)
Theorem C10_empty_src content node :
  getAttribute node (js "src") = Some [] ->
  preserveImages_replacement content node = []
  /\ preserveImages_replacement content (removeAttribute node (js "src")) = [].
Proof.
  intros H. unfold preserveImages_replacement.
  assert (H' : getAttribute (removeAttribute node (js "src")) (js "src")
               = None).
  { unfold getAttribute, removeAttribute. simpl. apply lookup_delete_eq. }
  rewrite H, H'. split; reflexivity.
Qed.

Lemma C10_empty_src_witness :
  getAttribute empty_src (js "src") = Some []
  /\ preserveImages_replacement [] empty_src = [].
Proof.
  split; [reflexivity|].
  apply (C10_empty_src [] empty_src). reflexivity.
Defined.

(* ------------------------------------------------------------------ *)
(** ** escapeRegExp and sanitizeHtml as functions on strings *)

Lemma escapeRegExp_cons c s :
  escapeRegExp (c :: s)
  = (if regexp_special c then [backslash; c] else [c]) ++ escapeRegExp s.
Proof.
  unfold escapeRegExp, replace_matched. simpl. by destruct (regexp_special c).
Qed.

Lemma not_special_not_backslash c :
  regexp_special c = false -> N.eqb c backslash = false.
Proof.
  intros H. destruct (N.eqb c backslash) eqn:E; [|done].
  apply N.eqb_eq in E. subst. discriminate.
Qed.

Lemma escapeRegExp_example :
  escapeRegExp (js "a.b*(c)") = [97; 92; 46; 98; 92; 42; 92; 40; 99; 92; 41].
Proof. reflexivity. Qed.

(** X1.  [escapeRegExp] loses nothing: reading its result back, each
    backslash standing for the code unit after it, gives the string it was
    applied to. *)
Theorem X1_escapeRegExp_round_trip s : unescape (escapeRegExp s) = s.
Proof.
  induction s as [|c s IH]; [done|].
  rewrite escapeRegExp_cons.
  destruct (regexp_special c) eqn:E; simpl.
  - by rewrite IH.
  - rewrite (not_special_not_backslash c E). by rewrite IH.
Qed.

(** X2.  The result of [escapeRegExp] is a pattern that matches only
    literally: every special code unit in it is escaped and every backslash
    escapes one.  It is longer than the string by the number of special
    units in it, and a string without any is returned as it is. *)
Theorem X2_escapeRegExp_literal s :
  literal_pattern (escapeRegExp s) = true
  /\ length (escapeRegExp s)
     = (length s + length (filter (fun c => regexp_special c = true) s))%nat
  /\ (Forall (fun c => regexp_special c = false) s -> escapeRegExp s = s).
Proof.
  split; [|split].
  - induction s as [|c s IH]; [done|].
    rewrite escapeRegExp_cons.
    destruct (regexp_special c) eqn:E; simpl.
    + by rewrite E, IH.
    + by rewrite (not_special_not_backslash c E), E, IH.
  - induction s as [|c s IH]; [done|].
    rewrite escapeRegExp_cons, length_app, IH.
    rewrite (filter_cons (fun c => regexp_special c = true) c s).
    destruct (regexp_special c) eqn:E.
    + rewrite decide_True by done. simpl. by rewrite Nat.add_succ_r.
    + rewrite decide_False by done. reflexivity.
  - induction 1 as [|c s Hc _ IH]; [done|].
    rewrite escapeRegExp_cons, Hc, IH. done.
Qed.

Lemma X2_escapeRegExp_literal_witness :
  Forall (fun c => regexp_special c = false) (js "abc")
  /\ escapeRegExp (js "abc") = js "abc".
Proof.
  assert (H : Forall (fun c => regexp_special c = false) (js "abc"))
    by (repeat constructor).
  split; [exact H|].
  destruct (X2_escapeRegExp_literal (js "abc")) as (_ & _ & Hid).
  exact (Hid H).
Defined.

Lemma sanitize_unit_clean c : Forall clean_unit (sanitize_unit c).
Proof.
  unfold sanitize_unit, clean_unit.
  destruct (N.eqb c NUL) eqn:E0; [constructor|].
  destruct (N.eqb c LS) eqn:E1; [repeat constructor; discriminate|].
  destruct (N.eqb c PS) eqn:E2; [repeat constructor; discriminate|].
  apply N.eqb_neq in E0, E1, E2. repeat constructor; done.
Qed.

Lemma sanitize_clean s : Forall clean_unit s -> sanitize_spec s = s.
Proof.
  induction 1 as [|c s (H0 & H1 & H2) _ IH]; [done|].
  unfold sanitize_spec in *. simpl. rewrite IH. unfold sanitize_unit.
  apply N.eqb_neq in H0, H1, H2. by rewrite H0, H1, H2.
Qed.

(** X3.  What [sanitizeHtml] returns holds no NUL, U+2028 or U+2029;
    sanitizing it again changes nothing; it is never longer than the
    markup; and markup without these code units is returned as it is. *)
Theorem X3_sanitizeHtml_clean html :
  Forall clean_unit (sanitizeHtml html)
  /\ sanitizeHtml (sanitizeHtml html) = sanitizeHtml html
  /\ (length (sanitizeHtml html) <= length html)%nat
  /\ (Forall clean_unit html -> sanitizeHtml html = html).
Proof.
  assert (Hc : Forall clean_unit (sanitizeHtml html)).
  { rewrite sanitizeHtml_spec. unfold sanitize_spec.
    induction html as [|c html IH]; simpl; [constructor|].
    apply Forall_app. split; [apply sanitize_unit_clean|exact IH]. }
  split; [exact Hc|]. split; [|split].
  - rewrite (sanitizeHtml_spec (sanitizeHtml html)). by apply sanitize_clean.
  - clear Hc. rewrite sanitizeHtml_spec. unfold sanitize_spec.
    induction html as [|c html IH]; simpl; [done|].
    rewrite length_app.
    change (S (length html)) with (1 + length html)%nat.
    apply Nat.add_le_mono; [|exact IH].
    unfold sanitize_unit.
    destruct (N.eqb c NUL); simpl; [lia|].
    destruct (N.eqb c LS); simpl; [lia|].
    destruct (N.eqb c PS); simpl; lia.
  - intros H. rewrite sanitizeHtml_spec. by apply sanitize_clean.
Qed.

Lemma X3_sanitizeHtml_clean_witness :
  Forall clean_unit (js "<p>a</p>")
  /\ sanitizeHtml (js "<p>a</p>") = js "<p>a</p>".
Proof.
  assert (H : Forall clean_unit (js "<p>a</p>"))
    by (repeat constructor; discriminate).
  split; [exact H|].
  destruct (X3_sanitizeHtml_clean (js "<p>a</p>")) as (_ & _ & _ & Hid).
  exact (Hid H).
Defined.

Lemma truthy_or_empty v : truthy (Some (or_empty v)) = truthy v.
Proof. by destruct v as [[|c s]|]. Qed.

(** X4.  The image rule reads the attributes [alt], [src] and [title] and
    nothing else: two nodes that agree on these three give the same
    Markdown, whatever their content and other attributes.  And the rule
    yields the empty string exactly when [src] is missing or empty. *)
Theorem X4_image_rule_attributes content content' node node' :
  (forall a, a ∈ [js "alt"; js "src"; js "title"] ->
     getAttribute node a = getAttribute node' a) ->
  preserveImages_replacement content node
  = preserveImages_replacement content' node'
  /\ (preserveImages_replacement content node = []
      <-> truthy (getAttribute node (js "src")) = false).
Proof.
  intros H. unfold preserveImages_replacement.
  rewrite <- !(H (js "alt")), <- !(H (js "src")), <- !(H (js "title"))
    by (repeat constructor).
  split; [reflexivity|].
  rewrite truthy_or_empty.
  destruct (truthy (getAttribute node (js "src"))); [|done].
  split; discriminate.
Qed.

Lemma X4_image_rule_attributes_witness :
  preserveImages_replacement (js "x")
    (img [(js "src", js "a.png"); (js "class", js "wide")])
  = preserveImages_replacement [] (img [(js "src", js "a.png")]).
Proof.
  apply (X4_image_rule_attributes (js "x") []
           (img [(js "src", js "a.png"); (js "class", js "wide")])
           (img [(js "src", js "a.png")])).
  intros a Ha.
  repeat (apply elem_of_cons in Ha as [->|Ha]; [reflexivity|]).
  by apply elem_of_nil in Ha.
Defined.

(* ------------------------------------------------------------------ *)
(** ** Every task of the server is a life of its program *)

Lemma drive_app seg ins1 ins2 :
  drive seg (ins1 ++ ins2) = drive (drive seg ins1) ins2.
Proof.
  revert seg. induction ins1 as [|i ins1 IH]; intros seg; simpl; [done|].
  destruct (state seg) as [| |b] eqn:E.
  - by rewrite drive_over by (rewrite E; done).
  - by rewrite drive_over by (rewrite E; done).
  - destruct (resume _ _ _ _ _) as [seg'|]; apply IH.
Qed.

Lemma events_of_cons tid e h :
  events_of tid (e :: h)
  = (if decide (e.1 = tid)
     then match e.2 with Event ev => [ev] | Spawned _ => [] end
     else []) ++ events_of tid h.
Proof.
  unfold events_of. simpl. destruct (decide (e.1 = tid)); [|done].
  by destruct (e.2).
Qed.

Lemma origins_of_cons tid e h :
  origins_of tid (e :: h)
  = (if decide (e.1 = tid)
     then match e.2 with Spawned o => [o] | Event _ => [] end
     else []) ++ origins_of tid h.
Proof.
  unfold origins_of. simpl. destruct (decide (e.1 = tid)); [|done].
  by destruct (e.2).
Qed.

Lemma events_of_app tid h1 h2 :
  events_of tid (h1 ++ h2) = events_of tid h1 ++ events_of tid h2.
Proof. apply omap_app. Qed.

Lemma origins_of_app tid h1 h2 :
  origins_of tid (h1 ++ h2) = origins_of tid h1 ++ origins_of tid h2.
Proof. apply omap_app. Qed.

Lemma events_of_tagged tid tid' evs :
  events_of tid (map (fun e => (tid', Event e)) evs)
  = if decide (tid' = tid) then evs else [].
Proof.
  induction evs as [|e evs IH].
  - by destruct (decide _).
  - change (map (fun e => (tid', Event e)) (e :: evs))
      with ((tid', Event e) :: map (fun e => (tid', Event e)) evs).
    rewrite events_of_cons, IH. simpl. by destruct (decide (tid' = tid)).
Qed.

Lemma origins_of_tagged tid tid' evs :
  origins_of tid (map (fun e => (tid', Event e)) evs) = [].
Proof.
  induction evs as [|e evs IH]; [done|].
  change (map (fun e => (tid', Event e)) (e :: evs))
    with ((tid', Event e) :: map (fun e => (tid', Event e)) evs).
  rewrite origins_of_cons, IH. simpl. by destruct (decide (tid' = tid)).
Qed.

Lemma events_of_fresh tid h :
  (forall e, e ∈ h -> e.1 <> tid) -> events_of tid h = [].
Proof.
  induction h as [|e h IH]; intros H; [done|].
  rewrite events_of_cons, IH.
  - rewrite decide_False; [done|]. apply H. by left.
  - intros e' He'. apply H. by right.
Qed.

Lemma origins_of_fresh tid h :
  (forall e, e ∈ h -> e.1 <> tid) -> origins_of tid h = [].
Proof.
  induction h as [|e h IH]; intros H; [done|].
  rewrite origins_of_cons, IH.
  - rewrite decide_False; [done|]. apply H. by left.
  - intros e' He'. apply H. by right.
Qed.

Lemma origins_of_elem tid o h :
  (tid, Spawned o) ∈ h <-> o ∈ origins_of tid h.
Proof.
  unfold origins_of. rewrite list_elem_of_omap. split.
  - intros H. exists (tid, Spawned o). split; [done|]. simpl.
    by rewrite decide_True.
  - intros ([tid' x] & Hin & Hx). simpl in Hx.
    destruct (decide (tid' = tid)) as [->|]; [|discriminate].
    destruct x; [|discriminate]. by injection Hx as ->.
Qed.


Lemma tracked_boot lib : tracked lib boot.
Proof.
  split; [|split].
  - intros e He. by apply elem_of_nil in He.
  - intros tid _. apply lookup_empty.
  - intros tid H. simpl in H. lia.
Qed.

Lemma tracked_spawn lib s l os :
  starts l = true -> tracked lib s ->
  tracked lib (spawn s (origin_of l) os (program_of lib l)).
Proof.
  intros Hl (Hh & Hp & Hlife).
  set (seg := run os (program_of lib l) (vars s)).
  assert (Hf : fresh (spawn s (origin_of l) os (program_of lib l))
               = S (fresh s)) by (simpl; lia).
  split; [|split].
  - intros e. rewrite Hf. simpl.
    rewrite elem_of_app, elem_of_cons, list_elem_of_fmap.
    intros [He|[->|(ev & -> & _)]]; simpl; [|lia|lia].
    specialize (Hh e He). lia.
  - intros tid. rewrite Hf. intros Ht. simpl.
    fold seg. destruct (state seg).
    + rewrite lookup_delete_ne by lia. apply Hp. lia.
    + rewrite lookup_delete_ne by lia. apply Hp. lia.
    + rewrite lookup_insert_ne by lia. apply Hp. lia.
  - intros tid. rewrite Hf. intros Ht.
    destruct (decide (tid = fresh s)) as [->|Hne].
    + exists l, os, (vars s), []. split; [done|].
      cbn [history spawn commit app].
      rewrite origins_of_app, events_of_app, origins_of_cons, events_of_cons.
      cbn [fst snd]. rewrite decide_True by done.
      rewrite origins_of_tagged, events_of_tagged, decide_True by done.
      rewrite origins_of_fresh, events_of_fresh;
        try (intros e He; specialize (Hh e He); lia).
      rewrite ?decide_True by done.
      split; [done|]. split; [done|].
      unfold life. simpl. fold seg. destruct (state seg); simpl.
      * apply lookup_delete_eq.
      * apply lookup_delete_eq.
      * apply lookup_insert_eq.
    + destruct (Hlife tid) as (l0 & os0 & g0 & ins0 & H1 & H2 & H3 & H4);
        [lia|].
      exists l0, os0, g0, ins0. split; [done|].
      cbn [history spawn commit app].
      rewrite origins_of_app, events_of_app, origins_of_cons, events_of_cons.
      cbn [fst snd]. rewrite decide_False by done.
      rewrite origins_of_tagged, events_of_tagged, decide_False by done.
      rewrite ?decide_False by done.
      rewrite !app_nil_r. split; [done|]. split; [done|].
      rewrite <- H4. cbn [pool spawn commit]. fold seg. destruct (state seg).
      * by apply lookup_delete_ne.
      * by apply lookup_delete_ne.
      * by apply lookup_insert_ne.
Qed.

Lemma tracked_settle lib s tid i a os susp seg' :
  pool s !! tid = Some susp ->
  resume os susp i a (vars s) = Some seg' ->
  tracked lib s -> tracked lib (commit s tid [] seg').
Proof.
  intros Hlook Hres (Hh & Hp & Hlife).
  assert (Ht : (tid < fresh s)%nat).
  { destruct (decide (tid < fresh s)%nat); [done|].
    rewrite Hp in Hlook by lia. done. }
  assert (Hf : fresh (commit s tid [] seg') = fresh s) by (simpl; lia).
  split; [|split].
  - intros e. rewrite Hf. simpl.
    rewrite elem_of_app, list_elem_of_fmap.
    intros [He|(ev & -> & _)]; simpl; [by apply Hh|done].
  - intros tid'. rewrite Hf. intros Ht'. simpl.
    destruct (state seg').
    + rewrite lookup_delete_ne by lia. by apply Hp.
    + rewrite lookup_delete_ne by lia. by apply Hp.
    + rewrite lookup_insert_ne by lia. by apply Hp.
  - intros tid'. rewrite Hf. intros Ht'.
    destruct (Hlife tid' Ht') as (l0 & os0 & g0 & ins0 & H1 & H2 & H3 & H4).
    destruct (decide (tid' = tid)) as [->|Hne].
    + exists l0, os0, g0,
        (ins0 ++ [{| found := Some (vars s); world := os; index := i;
                     reply := a |}]).
      split; [done|].
      cbn [history commit]. rewrite app_nil_l.
      rewrite origins_of_app, events_of_app.
      rewrite origins_of_tagged, events_of_tagged, decide_True by done.
      rewrite ?decide_True by done.
      rewrite app_nil_r. split; [done|].
      unfold life in *. rewrite drive_app.
      set (L := drive (run os0 (program_of lib l0) g0) ins0) in *.
      rewrite Hlook in H4.
      destruct (state L) as [| |b] eqn:EL; simpl in H4; try discriminate.
      injection H4 as ->.
      simpl. rewrite EL. simpl. rewrite Hres. simpl.
      split; [by rewrite H3|].
      destruct (state seg'); simpl.
      * apply lookup_delete_eq.
      * apply lookup_delete_eq.
      * apply lookup_insert_eq.
    + exists l0, os0, g0, ins0. split; [done|].
      cbn [history commit]. rewrite app_nil_l.
      rewrite origins_of_app, events_of_app.
      rewrite origins_of_tagged, events_of_tagged, decide_False by done.
      rewrite ?decide_False by done.
      rewrite !app_nil_r. split; [done|]. split; [done|].
      rewrite <- H4. cbn [pool commit]. destruct (state seg').
      * by apply lookup_delete_ne.
      * by apply lookup_delete_ne.
      * by apply lookup_insert_ne.
Qed.

Lemma tracked_step lib l s s' :
  step lib l s = Some s' -> tracked lib s -> tracked lib s'.
Proof.
  intros Hs Ht. destruct l as [r os|os|b d os|tid i a os]; simpl in Hs.
  - injection Hs as <-.
    by apply (tracked_spawn lib s (Arrive r os) os).
  - injection Hs as <-.
    by apply (tracked_spawn lib s (Startup os) os).
  - destruct (decide _); [|discriminate]. injection Hs as <-.
    by apply (tracked_spawn lib s (Disconnect b d os) os).
  - destruct (pool s !! tid) as [susp|] eqn:Hl; [|discriminate]. simpl in Hs.
    destruct (resume os susp i a (vars s)) as [seg'|] eqn:Hr; [|discriminate].
    injection Hs as <-. by eapply tracked_settle.
Qed.

Lemma tracked_steps lib ls s s' :
  steps lib ls s = Some s' -> tracked lib s -> tracked lib s'.
Proof.
  revert s. induction ls as [|l ls IH]; intros s Hs Ht; simpl in Hs.
  - by injection Hs as <-.
  - destruct (step lib l s) as [s1|] eqn:E; [|discriminate]. simpl in Hs.
    eapply IH; [done|]. by eapply tracked_step.
Qed.

(** In every execution of the server, whatever the interleaving, every task
    that appears in the history is a life of the program of the operation
    it was spawned for. *)
Lemma spawned_is_life lib ls s tid x :
  steps lib ls boot = Some s -> (tid, x) ∈ history s -> is_life lib s tid.
Proof.
  intros Hs Hin.
  destruct (tracked_steps lib ls boot s Hs (tracked_boot lib))
    as (Hh & _ & Hlife).
  apply Hlife, (Hh _ Hin).
Qed.

(* ------------------------------------------------------------------ *)
(** ** The conduct of each operation, symbolically *)

Lemma holds_weaken (mid mid' : list event -> globals -> Prop)
    (fin fin' : list event -> globals -> status -> Prop) s :
  holds mid fin s ->
  (forall tr g, mid tr g -> mid' tr g) ->
  (forall tr g st, fin tr g st -> fin' tr g st) ->
  holds mid' fin' s.
Proof. unfold holds. destruct (state s); auto. Qed.


Lemma conduct_spec o over tr :
  conduct o over tr = true ->
  count is_response tr = (if over then owes o else 0%nat)
  /\ (count is_launch_call tr <= may_launch o)%nat
  /\ (count is_close tr <= may_close o)%nat.
Proof.
  unfold conduct. rewrite !andb_true_iff, Nat.eqb_eq, !Nat.leb_le. tauto.
Qed.


Lemma get_status_conduct g :
  wp (fun _ _ => True) (fun tr _ => pending (FromRequest GetStatus) tr)
     (fun tr _ st => done_with (FromRequest GetStatus) tr st) get_status [] g.
Proof. wp_run; conduct_leaf. Qed.

Lemma start_browser_conduct g :
  wp (fun _ _ => True) (fun tr _ => pending (FromRequest StartBrowser) tr)
     (fun tr _ st => done_with (FromRequest StartBrowser) tr st)
     start_browser [] g.
Proof. wp_run; conduct_leaf. Qed.

Lemma stop_browser_conduct g :
  wp (fun _ _ => True) (fun tr _ => pending (FromRequest StopBrowser) tr)
     (fun tr _ st => done_with (FromRequest StopBrowser) tr st)
     stop_browser [] g.
Proof. wp_run; conduct_leaf. Qed.

Lemma startServer_conduct g :
  wp (fun _ _ => True) (fun tr _ => pending FromStartup tr)
     (fun tr _ st => done_with FromStartup tr st) startServer [] g.
Proof. wp_run; conduct_leaf. Qed.

Lemma disconnected_conduct b d g :
  wp (fun _ _ => True) (fun tr _ => pending (FromDisconnect b d) tr)
     (fun tr _ st => done_with (FromDisconnect b d) tr st)
     (disconnected d) [] g.
Proof. wp_run; conduct_leaf. Qed.

(** A fetch among other tasks: its conduct and its answers. *)
Lemma get_markdown_conduct lib b g :
  wp (fun _ _ => True)
     (fun tr _ => conduct (FromRequest (PostMarkdown b)) false tr = true
                  /\ reported lib b None None tr)
     (fun tr _ st => st = Finished
                     /\ conduct (FromRequest (PostMarkdown b)) true tr = true
                     /\ reported lib b None None tr)
     (get_markdown lib b) [] g.
Proof. wp_run. all: fetch_leaf. Qed.

(** Every task, whatever the others do, keeps to the conduct of the
    operation it was started for. *)
Lemma conduct_life lib l os g ins :
  starts l = true ->
  holds (fun tr _ => pending (origin_of l) tr)
        (fun tr _ st => done_with (origin_of l) tr st)
        (life os (program_of lib l) g ins).
Proof.
  intros Hl. destruct l as [[| | |b] os'|os'|b d os'|]; try discriminate; simpl.
  - apply life_among, get_status_conduct.
  - apply life_among, start_browser_conduct.
  - apply life_among, stop_browser_conduct.
  - eapply holds_weaken; [apply life_among, (get_markdown_conduct lib b g)| |].
    + intros tr _ [H _]. exact H.
    + intros tr _ st (H1 & H2 & _). left. by split.
  - apply life_among, startServer_conduct.
  - apply life_among, disconnected_conduct.
Qed.

(** The task [tid] of a reachable server, started for [o], is suspended with
    the conduct of a pending task, or is over with that of a finished one. *)
Lemma task_conduct lib ls s tid o :
  steps lib ls boot = Some s -> (tid, Spawned o) ∈ history s ->
  match pool s !! tid with
  | Some _ => pending o (events_of tid (history s))
  | None => exists st, done_with o (events_of tid (history s)) st
  end.
Proof.
  intros Hs Hin.
  destruct (spawned_is_life lib ls s tid _ Hs Hin)
    as (l & os & g & ins & Hl & Ho & He & Hp).
  apply origins_of_elem in Hin. rewrite Ho in Hin.
  apply list_elem_of_singleton in Hin as ->.
  pose proof (conduct_life lib l os g ins Hl) as H.
  unfold holds in H. rewrite Hp, He.
  destruct (state (life os (program_of lib l) g ins)); simpl; eauto.
Qed.

(** Each operation on its own: the session it leaves. *)
Lemma get_status_solo g :
  wp eq (fun _ _ => True) (fun tr g' _ => session_of g tr g') get_status [] g.
Proof. wp_run; session_leaf. Qed.

Lemma start_browser_solo g :
  wp eq (fun _ _ => True) (fun tr g' _ => session_of g tr g')
     start_browser [] g.
Proof. wp_run; session_leaf. Qed.

Lemma stop_browser_solo g :
  wp eq (fun _ _ => True) (fun tr g' _ => session_of g tr g')
     stop_browser [] g.
Proof. wp_run; session_leaf. Qed.

Lemma startServer_solo g :
  wp eq (fun _ _ => True) (fun tr g' _ => session_of g tr g') startServer [] g.
Proof. wp_run; session_leaf. Qed.

Lemma disconnected_solo d g :
  wp eq (fun _ _ => True) (fun tr g' _ => session_of g tr g')
     (disconnected d) [] g.
Proof. wp_run; session_leaf. Qed.

(** A fetch on its own: the session it leaves and the steps it takes. *)
Lemma get_markdown_solo lib b g :
  wp eq (fun tr g' => reuses g tr g' /\ staged lib (selector b) tr)
     (fun tr g' _ => session_of g tr g' /\ reuses g tr g'
                     /\ staged lib (selector b) tr)
     (get_markdown lib b) [] g.
Proof. wp_run. all: solo_leaf. Qed.

Lemma start_browser_outcome g :
  browser g = None ->
  wp eq (fun _ _ => True)
     (fun tr g' st => st = Finished /\ start_outcome tr g')
     start_browser [] g.
Proof. intros Hg. wp_run. all: outcome_leaf. Qed.

Lemma startServer_outcome g :
  wp eq (fun _ _ => True)
     (fun tr g' st => st = Finished /\ (launched tr g' \/ g' = absent))
     startServer [] g.
Proof. wp_run. all: outcome_leaf. Qed.

Lemma registered_app tr1 tr2 :
  registered (tr1 ++ tr2) = registered tr1 ++ registered tr2.
Proof.
  induction tr1 as [|e tr1 IH]; [done|].
  destruct e as [[]| | |]; simpl; by rewrite ?IH.
Qed.

(** While one task is alone in the pool, the listeners registered are those
    of that task. *)
Lemma solo_listeners lib ls :
  forall s tid seg s' L,
    Forall (fun l => starts l = false) ls ->
    vars s = after seg -> pool s = only tid (state seg) ->
    listeners s = L ++ registered (emitted seg) ->
    steps lib ls s = Some s' ->
    exists ins, alone ins
      /\ vars s' = after (drive seg ins)
      /\ pool s' = only tid (state (drive seg ins))
      /\ listeners s' = L ++ registered (emitted (drive seg ins)).
Proof.
  induction ls as [|l ls IH]; intros s tid seg s' L Hall Hv Hp HL Hs.
  - exists []. simpl in *. injection Hs as <-. split; [constructor|done].
  - inversion Hall as [|? ? Hl Hls]; subst.
    destruct l as [| | |tid' i a os]; try discriminate.
    simpl in Hs.
    destruct (pool s !! tid') as [susp|] eqn:Hlook; [|discriminate].
    simpl in Hs.
    destruct (resume os susp i a (vars s)) as [seg'|] eqn:Hres;
      [|discriminate].
    simpl in Hs.
    rewrite Hp in Hlook.
    destruct (state seg) as [| |b] eqn:Hst; simpl in Hlook;
      try (by rewrite lookup_empty in Hlook).
    apply lookup_singleton_Some in Hlook as [<- <-].
    destruct (IH (commit s tid [] seg') tid (extend seg seg') s' L Hls)
      as (ins & Hins & Hv' & Hp' & HL'); [done| | |done|].
    { change (state (extend seg seg')) with (state seg').
      by apply (commit_only _ _ _ _ (Blocked b)). }
    { cbn [listeners commit extend emitted].
      by rewrite HL, registered_app, app_assoc. }
    exists ({| found := None; world := os; index := i; reply := a |} :: ins).
    split; [by constructor|].
    simpl. rewrite Hst. simpl. rewrite <- Hv, Hres. done.
Qed.

(** Every operation, run on its own to its end, leaves in [browser] the
    browser it found or one it has registered the listener for. *)
Lemma operation_session lib l g os ins :
  alone ins ->
  let s := life os (program_of lib l) g ins in
  (forall b, state s <> Blocked b) -> session_of g (emitted s) (after s).
Proof.
  intros Hins s Hb. subst s.
  assert (Hw : forall p,
    wp eq (fun _ _ => True) (fun tr g' _ => session_of g tr g') p [] g ->
    (forall b, state (life os p g ins) <> Blocked b) ->
    session_of g (emitted (life os p g ins)) (after (life os p g ins))).
  { intros p Hp Hnb. pose proof (life_alone _ _ _ _ Hp os ins Hins) as H.
    unfold holds in H. destruct (state (life os p g ins)) as [| |b]; try done.
    by destruct (Hnb b). }
  destruct l as [[| | |b] os'|os'|b d os'|tid i a os']; simpl in *.
  - apply Hw; [apply get_status_solo|done].
  - apply Hw; [apply start_browser_solo|done].
  - apply Hw; [apply stop_browser_solo|done].
  - pose proof (life_alone _ _ _ _ (get_markdown_solo lib b g) os ins Hins)
      as H.
    unfold holds in H.
    destruct (state (life os (get_markdown lib b) g ins)) as [| |s];
      [tauto|tauto|by destruct (Hb s)].
  - apply Hw; [apply startServer_solo|done].
  - apply Hw; [apply disconnected_solo|done].
  - unfold life. simpl. rewrite drive_over by done. unfold session_of. simpl.
    destruct (browser g); [by left|done].
Qed.

Lemma stop_waits os g b :
  browser g = Some b ->
  run os stop_browser g
  = {| after := g; emitted := [Called (Close b)];
       state := Blocked (closing b) |}.
Proof. destruct g as [br pg]. simpl. intros ->. reflexivity. Qed.

Lemma stop_resumes os g b :
  resume os (closing b) 0 (Fulfil VUndefined) g
  = Some {| after := absent;
            emitted := [Settled (Close b) (Resolved tt);
                        Did (Respond stopped)];
            state := Finished |}.
Proof. reflexivity. Qed.

(** The listener calls [puppeteer.launch] in its first segment when the
    directory is created. *)
Lemma disconnected_launches d os g tid :
  creates os ->
  launches (tagged tid (emitted (run os (disconnected d) g))) = 1%nat.
Proof.
  intros (t & Ht & Hm). unfold disconnected, await_async, initBrowser. cbn.
  destruct (os bool (ExistsSync d)) as [[|]|m1]; cbn;
    [destruct (os unit (RmSync d)) as [[]|m2]; cbn| |];
    rewrite Ht; cbn; rewrite Hm; reflexivity.
Qed.

(** [reported] refuses an answer that names another URL than the one
    navigated to, and an error answer whose message was not logged. *)
Lemma reported_refuses_other_url :
  ~ reported plain fetch_example None None
      [Settled (Title 2%nat) (Resolved (js "Example Domain"));
       Did (Respond {| code := 200;
                       payload := JMarkdown (js "https://example.org") []
                                    (js "Example Domain") |})].
Proof. simpl. intros [(_ & H & _) _]. discriminate H. Qed.

Lemma reported_refuses_unlogged_error :
  ~ reported plain fetch_example None None
      [Settled (Goto 2%nat (js "https://example.com") 60000)
               (Rejected (js "net::ERR_FAILED"));
       Did (Respond {| code := 500;
                       payload := JErrorMessage (js "Failed to process URL")
                                    (js "net::ERR_FAILED") |})].
Proof. simpl. intros [(_ & _ & H) _]. discriminate H. Qed.

(** [staged] refuses an extraction right after a page-loaded check that
    failed, and a read of the document when [$] has found the element. *)
Lemma staged_refuses_early_extraction :
  ~ staged plain None
      [Settled (EvaluateIsPageLoaded 2%nat) (Resolved false);
       Called (Content 2%nat)].
Proof. simpl. intros [[H _] _]. discriminate H. Qed.

Lemma staged_refuses_skipped_outerHTML :
  ~ staged plain (Some (js "main"))
      [Settled (Query 2%nat (js "main")) (Resolved (Some 5%nat));
       Called (Content 2%nat)].
Proof. simpl. intros [[H _] _]. discriminate H. Qed.

(* ------------------------------------------------------------------ *)
(** ** Further properties of the server *)

(** X5.  In every execution of the server, whatever the interleaving of its
    tasks: a task that is still suspended has sent no response; a task that
    is over has sent exactly one response if it was started for a request
    and none if it was started for the startup or a disconnection.  The one
    exception is a status request whose [process.uptime()] threw: it ends
    without a response. *)
Theorem X5_one_response_per_request lib ls s tid o :
  steps lib ls boot = Some s -> (tid, Spawned o) ∈ history s ->
  let n := count is_response (events_of tid (history s)) in
  match pool s !! tid with
  | Some _ => n = 0%nat
  | None => n = owes o
            \/ o = FromRequest GetStatus /\ n = 0%nat
               /\ uptime_failed (events_of tid (history s))
  end.
Proof.
  intros Hs Hin. cbv zeta.
  pose proof (task_conduct lib ls s tid o Hs Hin) as H.
  destruct (pool s !! tid).
  - by apply conduct_spec in H as [H _].
  - destruct H as (st & [[_ H]|(Ho & Hu & H)]);
      apply conduct_spec in H as [H _]; auto.
Qed.

Lemma X5_one_response_per_request_witness :
  exists s, steps plain failed_start boot = Some s
    /\ (0%nat, Spawned (FromRequest StartBrowser)) ∈ history s
    /\ match pool s !! 0%nat with
       | Some _ => count is_response (events_of 0 (history s)) = 0%nat
       | None =>
           count is_response (events_of 0 (history s)) = 1%nat
           \/ FromRequest StartBrowser = FromRequest GetStatus
              /\ count is_response (events_of 0 (history s)) = 0%nat
              /\ uptime_failed (events_of 0 (history s))
       end.
Proof.
  eexists. split; [vm_compute; reflexivity|].
  split; [vm_compute; constructor|].
  apply (X5_one_response_per_request plain failed_start _ 0%nat
           (FromRequest StartBrowser)).
  - vm_compute. reflexivity.
  - vm_compute. constructor.
Defined.



(** X7.  In every life of a fetch, whatever the other tasks do: every
    navigation is to the serialization of the request's [url] by [URL], with
    a timeout of 60 s; every answer is 400 "URL is required", 500 "Failed to
    start browser", 500 "Failed to process URL" with a message that was
    logged by [console.error] just before, or 200 with the Markdown, that
    same serialized URL and the title [page.title()] resolved to last; and
    no exception escapes the handler. *)
Theorem X7_fetch_answers lib b os g ins :
  reported lib b None None (emitted (life os (get_markdown lib b) g ins))
  /\ forall m, state (life os (get_markdown lib b) g ins) <> Uncaught m.
Proof.
  pose proof (life_among _ _ _ _ (get_markdown_conduct lib b g) os ins) as H.
  unfold holds in H.
  destruct (state (life os (get_markdown lib b) g ins)); intuition congruence.
Qed.

(** X8.  A fetch that finds a session — [browser] and [browserPage] both
    set — and that no other task disturbs reuses it: it calls neither
    [puppeteer.launch] nor [browser.newPage], and the variables are as it
    found them, whether it succeeds or fails. *)
Theorem X8_fetch_reuses_session lib b os g ins h p :
  alone ins -> browser g = Some h -> browserPage g = Some p ->
  let s := life os (get_markdown lib b) g ins in
  after s = g
  /\ count is_launch_call (emitted s) = 0%nat
  /\ count is_newPage (emitted s) = 0%nat.
Proof.
  intros Hins Hb Hp. cbv zeta.
  pose proof (life_alone _ _ _ _ (get_markdown_solo lib b g) os ins Hins) as H.
  unfold holds, reuses in H. rewrite Hb, Hp in H.
  destruct (state (life os (get_markdown lib b) g ins));
    [destruct H as (_ & [H1 H2] & _)|destruct H as (_ & [H1 H2] & _)
    |destruct H as ([H1 H2] & _)];
    (split; [done|lia]).
Qed.

Lemma X8_fetch_reuses_session_witness :
  alone selector_missing
  /\ after (life (calm 0) (get_markdown plain selector_example) live
                 selector_missing) = live
  /\ count is_launch_call
       (emitted (life (calm 0) (get_markdown plain selector_example) live
                      selector_missing)) = 0%nat
  /\ count is_newPage
       (emitted (life (calm 0) (get_markdown plain selector_example) live
                      selector_missing)) = 0%nat.
Proof.
  assert (H : alone selector_missing) by (repeat constructor).
  split; [exact H|].
  apply (X8_fetch_reuses_session plain selector_example (calm 0) live
           selector_missing 1%nat 2%nat H); reflexivity.
Defined.

(** X9.  In an execution where the operations follow one another, each
    running to its end before the next starts, the server is always left
    with [browser] and [browserPage] both set or both null, and with the
    'disconnected' listener registered for the browser in [browser]. *)
Theorem X9_serial_sessions lib s :
  serial lib s -> pool s = ∅ /\ paired (vars s) /\ watched s.
Proof.
  induction 1 as [|s l ls s' _ (Hp & Hg & Hw) Hl Hls Hs Hp'].
  - split; [done|]. split; [unfold paired; simpl; tauto|].
    intros b Hb. discriminate Hb.
  - split; [done|].
    assert (exists o os, step lib l s
              = Some (spawn s o os (program_of lib l))) as (o & os & Hstep).
    { destruct l as [r os|os|b d os|]; try discriminate; simpl in *.
      - eauto.
      - eauto.
      - destruct (decide ((b, d) ∈ listeners s)); [eauto|discriminate]. }
    simpl in Hs. rewrite Hstep in Hs. simpl in Hs.
    set (seg := run os (program_of lib l) (vars s)) in *.
    assert (Hq0 : pool (spawn s o os (program_of lib l))
                  = only (fresh s) (state seg)).
    { unfold spawn. apply (commit_only _ _ _ _ Finished). exact Hp. }
    destruct (solo_listeners lib ls (spawn s o os (program_of lib l))
                (fresh s) seg s' (listeners s) Hls)
      as (ins & Hins & Hv & Hq & HL); [done|done|done|done|].
    assert (Hnb : forall b, state (drive seg ins) <> Blocked b).
    { apply (only_empty (fresh s)). by rewrite <- Hq. }
    change (drive seg ins) with (life os (program_of lib l) (vars s) ins)
      in *.
    split.
    + rewrite Hv.
      by apply (operation_alone lib l (vars s) os ins Hg Hins).
    + intros b Hb. rewrite Hv in Hb.
      pose proof (operation_session lib l (vars s) os ins Hins Hnb) as Hse.
      unfold session_of in Hse. rewrite Hb in Hse. rewrite HL.
      destruct Hse as [Hold|[d Hd]].
      * destruct (Hw b Hold) as [d Hd]. exists d.
        apply elem_of_app. by left.
      * exists d. apply elem_of_app. right. by apply list_elem_of_In.
Qed.

Lemma X9_serial_sessions_witness :
  exists s, steps plain good_start boot = Some s
    /\ browser (vars s) = Some 1%nat
    /\ pool s = ∅ /\ paired (vars s) /\ watched s.
Proof.
  eexists. split; [vm_compute; reflexivity|]. split; [reflexivity|].
  apply (X9_serial_sessions plain).
  apply (serial_operation plain boot (Arrive StartBrowser (calm 1))
           (tail good_start)).
  - constructor.
  - reflexivity.
  - repeat constructor.
  - vm_compute. reflexivity.
  - vm_compute. reflexivity.
Defined.

(** X10.  The stop handler.  With [browser] null it answers "Browser not
    running" at once and touches nothing.  Otherwise it calls
    [browser.close()] on the browser in [browser] and waits; when the call
    resolves it sets both variables to null, whatever they have become
    meanwhile, and answers "Browser stopped successfully"; when the call is
    rejected it answers 500 "Failed to stop browser: " with the message and
    leaves the variables as it finds them, so the server goes on reporting
    a running browser. *)
Theorem X10_stop_outcomes os g i :
  match browser g with
  | None =>
      run os stop_browser g
      = {| after := g; emitted := [Did (Respond not_running)];
           state := Finished |}
  | Some b =>
      after (run os stop_browser g) = g
      /\ emitted (run os stop_browser g) = [Called (Close b)]
      /\ match reply i with
         | Fulfil VUndefined =>
             life os stop_browser g [i]
             = {| after := absent;
                  emitted := [Called (Close b);
                              Settled (Close b) (Resolved tt);
                              Did (Respond stopped)];
                  state := Finished |}
         | Fulfil _ => life os stop_browser g [i] = run os stop_browser g
         | Reject m =>
             life os stop_browser g [i]
             = {| after := default g (found i);
                  emitted := [Called (Close b);
                              Settled (Close b) (Rejected m);
                              Did (Respond (stop_failed m))];
                  state := Finished |}
         end
  end.
Proof.
  destruct g as [[b|] p]; [|reflexivity]. simpl.
  split; [reflexivity|]. split; [reflexivity|].
  unfold life. simpl. destruct (reply i) as [[]|m]; reflexivity.
Qed.

(** X11.  A stop request does not remove the 'disconnected' listener.  On a
    server whose browser has its listener registered, a stop request whose
    [browser.close()] resolves leaves both variables null and the listeners
    as they were; so the disconnection of the closed browser still fires
    the listener, which calls [puppeteer.launch] again. *)
Theorem X11_stop_keeps_listener lib s b d os os1 os2 :
  browser (vars s) = Some b -> (b, d) ∈ listeners s ->
  exists s2 s3,
    steps lib [Arrive StopBrowser os;
               Settle (fresh s) 0 (Fulfil VUndefined) os1] s = Some s2
    /\ vars s2 = absent
    /\ listeners s2 = listeners s
    /\ last (history s2) = Some (fresh s, Event (Did (Respond stopped)))
    /\ step lib (Disconnect b d os2) s2 = Some s3
    /\ (creates os2 -> launches (history s3) = S (launches (history s2))).
Proof.
  intros Hb Hd.
  set (s1 := spawn s (FromRequest StopBrowser) os stop_browser).
  set (seg := {| after := absent;
                 emitted := [Settled (Close b) (Resolved tt);
                             Did (Respond stopped)];
                 state := Finished |}).
  set (s2 := commit s1 (fresh s) [] seg).
  assert (H1 : pool s1 !! fresh s = Some (closing b)).
  { unfold s1, spawn, commit. cbn [pool]. rewrite (stop_waits os _ b Hb).
    cbn [state]. apply lookup_insert_eq. }
  assert (HL1 : listeners s1 = listeners s).
  { unfold s1, spawn, commit. cbn [listeners].
    rewrite (stop_waits os _ b Hb). cbn. apply app_nil_r. }
  assert (HL2 : listeners s2 = listeners s).
  { unfold s2, commit. cbn [listeners]. rewrite HL1. cbn. apply app_nil_r. }
  exists s2, (spawn s2 (FromDisconnect b d) os2 (disconnected d)).
  split.
  { cbn [steps step handler]. fold s1. cbn [mbind option_bind].
    rewrite H1. cbn [mbind option_bind]. rewrite stop_resumes. reflexivity. }
  split; [reflexivity|]. split; [exact HL2|].
  split.
  { unfold s2, commit. cbn [history seg emitted map].
    rewrite !app_assoc.
    change ([(fresh s, Event (Settled (Close b) (Resolved ())));
             (fresh s, Event (Did (Respond stopped)))])
      with ([(fresh s, Event (Settled (Close b) (Resolved ())))]
              ++ [(fresh s, Event (Did (Respond stopped)))]).
    rewrite app_assoc. apply last_snoc. }
  split.
  { cbn [step]. rewrite HL2. by rewrite decide_True. }
  intros Hc. unfold spawn at 1. unfold commit at 1. cbn [history].
  rewrite !launches_app.
  change (map (fun e => (fresh s2, Event e))
              (emitted (run os2 (disconnected d) (vars s2))))
    with (tagged (fresh s2) (emitted (run os2 (disconnected d) (vars s2)))).
  rewrite (disconnected_launches d os2 (vars s2) (fresh s2) Hc).
  unfold launches at 2. simpl. lia.
Qed.

Lemma X11_stop_keeps_listener_witness :
  browser (vars live_system) = Some 1%nat
  /\ (1%nat, 0) ∈ listeners live_system
  /\ creates (calm 2)
  /\ exists s2 s3,
       steps plain [Arrive StopBrowser (calm 0);
                    Settle (fresh live_system) 0 (Fulfil VUndefined) (calm 1)]
             live_system = Some s2
       /\ vars s2 = absent
       /\ step plain (Disconnect 1%nat 0 (calm 2)) s2 = Some s3
       /\ launches (history s3) = S (launches (history s2)).
Proof.
  assert (H : (1%nat, 0) ∈ listeners live_system) by (simpl; by left).
  assert (Hc : creates (calm 2)) by (exists 2; split; reflexivity).
  split; [reflexivity|]. split; [exact H|]. split; [exact Hc|].
  destruct (X11_stop_keeps_listener plain live_system 1%nat 0 (calm 0)
              (calm 1) (calm 2) eq_refl H)
    as (s2 & s3 & H1 & H2 & _ & _ & H3 & H4).
  exists s2, s3. auto.
Defined.

(** X12.  A start request that finds no browser and that no other task
    disturbs ends in one of two ways.  Either it answers "Browser started
    successfully", and then [initBrowser] has made the directory, launched
    a browser, opened a page in it and registered the listener for that
    browser and directory, and the variables hold that browser and page; or
    it answers 500 "Failed to start browser", and both variables are
    null. *)
Theorem X12_start_outcomes os g ins :
  alone ins -> browser g = None ->
  (forall b, state (life os start_browser g ins) <> Blocked b) ->
  state (life os start_browser g ins) = Finished
  /\ start_outcome (emitted (life os start_browser g ins))
                   (after (life os start_browser g ins)).
Proof.
  intros Hins Hg Hnb.
  pose proof (life_alone _ _ _ _ (start_browser_outcome g Hg) os ins Hins)
    as H.
  unfold holds in H.
  destruct (state (life os start_browser g ins)) as [| |b]; try tauto.
  by destruct (Hnb b).
Qed.

Lemma X12_start_outcomes_witness :
  alone launch_fulfilled
  /\ browser absent = None
  /\ state (life (calm 5) start_browser absent launch_fulfilled) = Finished
  /\ start_outcome
       (emitted (life (calm 5) start_browser absent launch_fulfilled))
       (after (life (calm 5) start_browser absent launch_fulfilled)).
Proof.
  assert (H : alone launch_fulfilled) by (repeat constructor).
  split; [exact H|]. split; [reflexivity|].
  apply (X12_start_outcomes (calm 5) absent launch_fulfilled H eq_refl).
  intros b Hb. vm_compute in Hb. discriminate Hb.
Defined.

(** X13.  The startup, when no other task disturbs it, ends without an
    exception, whatever the variables were, in one of two ways: [initBrowser]
    has succeeded, and the variables hold the browser it launched and the
    page it opened, with the listener registered; or both variables are
    null. *)
Theorem X13_startup_outcomes os g ins :
  alone ins ->
  (forall b, state (life os startServer g ins) <> Blocked b) ->
  state (life os startServer g ins) = Finished
  /\ (launched (emitted (life os startServer g ins))
               (after (life os startServer g ins))
      \/ after (life os startServer g ins) = absent).
Proof.
  intros Hins Hnb.
  pose proof (life_alone _ _ _ _ (startServer_outcome g) os ins Hins) as H.
  unfold holds in H.
  destruct (state (life os startServer g ins)) as [| |b]; try tauto.
  by destruct (Hnb b).
Qed.

Lemma X13_startup_outcomes_witness :
  alone launch_fulfilled
  /\ state (life (calm 5) startServer absent launch_fulfilled) = Finished
  /\ (launched (emitted (life (calm 5) startServer absent launch_fulfilled))
               (after (life (calm 5) startServer absent launch_fulfilled))
      \/ after (life (calm 5) startServer absent launch_fulfilled) = absent).
Proof.
  assert (H : alone launch_fulfilled) by (repeat constructor).
  split; [exact H|].
  apply (X13_startup_outcomes (calm 5) absent launch_fulfilled H).
  intros b Hb. vm_compute in Hb. discriminate Hb.
Defined.

(** X14.  The status handler answers in its first synchronous segment: it
    never waits, calls nothing, and leaves the variables as they are.  Its
    answer has status 200 and says "Browser running" with the uptime of the
    process when [browser] is set, "Browser not running" with uptime 0,
    without reading the clock, when it is null.  It fails only when
    [browser] is set and [process.uptime()] throws. *)
Theorem X14_status_is_immediate os g :
  let s := run os get_status g in
  after s = g
  /\ (forall b, state s <> Blocked b)
  /\ count is_call (emitted s) = 0%nat
  /\ (forall r, In (Did (Respond r)) (emitted s) ->
        state s = Finished
        /\ code r = 200
        /\ exists uptime,
             payload r = JStatusUptime (status_text g) uptime
             /\ match browser g with
                | Some _ => os _ ProcessUptime = Resolved uptime
                | None => uptime = 0
                end)
  /\ (forall m, state s = Uncaught m ->
        browser g <> None /\ os _ ProcessUptime = Rejected m).
Proof.
  destruct g as [[b|] p]; unfold get_status, status_text; cbn.
  - destruct (os N ProcessUptime) as [u|m]; cbn.
    + split; [done|]. split; [done|]. split; [done|]. split; [|done].
      intros r [H|[H|[]]]; [discriminate|]. injection H as <-. eauto.
    + split; [done|]. split; [done|]. split; [done|]. split.
      * intros r [H|[]]. discriminate.
      * intros m' [= <-]. done.
  - split; [done|]. split; [done|]. split; [done|]. split; [|done].
    intros r [H|[]]. injection H as <-. eauto.
Qed.

(** X15.  In every life of a fetch that no other task disturbs, from the
    page-loaded check on: when the check says the page is not loaded the
    handler logs the warning and starts a timer of 5 s, and when it says the
    page is loaded the next call is the extraction, [$] with the selector
    when there is one and [content] otherwise; an element found by [$] is
    read by [outerHTML]; and when the markup has been read, either its
    sanitized form converts and the next call asks for the title, or the
    conversion fails and its message is logged and answered with 500, the
    title not being asked for. *)
Theorem X15_fetch_stages lib b os g ins :
  alone ins ->
  staged lib (selector b) (emitted (life os (get_markdown lib b) g ins)).
Proof.
  intros Hins.
  pose proof (life_alone _ _ _ _ (get_markdown_solo lib b g) os ins Hins) as H.
  unfold holds in H.
  destruct (state (life os (get_markdown lib b) g ins)); tauto.
Qed.

Lemma X15_fetch_stages_witness :
  alone selector_missing
  /\ staged plain (Some (js "#missing"))
       (emitted (life (calm 0) (get_markdown plain selector_example) live
                      selector_missing)).
Proof.
  assert (H : alone selector_missing) by (repeat constructor).
  split; [exact H|].
  apply (X15_fetch_stages plain selector_example (calm 0) live
           selector_missing H).
Defined.

(** X16.  The 'disconnected' listener, in its first synchronous segment and
    whatever Node answers: it logs the disconnection; it removes the
    directory of the browser when [existsSync] says it exists, and only
    then; when [existsSync] or [rmSync] throws it logs the message as a
    cleanup warning and goes on; and it enters [initBrowser] with both
    variables null. *)
Theorem X16_listener_cleanup d os g :
  let s := run os (disconnected d) g in
  cleanup os d (emitted s)
  /\ In (Did (Console Log (js "Browser disconnected. Cleaning up...")))
        (emitted s)
  /\ init_begins os absent s.
Proof.
  cbv zeta. unfold cleanup, init_begins, disconnected, await_async, initBrowser.
  cbn.
  destruct (os bool (ExistsSync d)) as [[|]|m1] eqn:E1; cbn;
    [destruct (os unit (RmSync d)) as [[]|m2] eqn:E2; cbn| |];
    (destruct (os N DateNow) as [t|m3] eqn:E3; cbn;
       [destruct (os unit (MkdirSync t)) as [[]|m4] eqn:E4; cbn|]);
    rewrite ?E2; repeat split; first [reflexivity | in_list].
Qed.

(** X17.  [initBrowser] calls [puppeteer.launch] exactly when [Date.now()]
    and [mkdirSync] of the temporary directory succeed: the startup, and a
    start request that finds no browser, then end their first segment on the
    launch, having called nothing else and with the variables untouched.
    When one of the two throws, nothing is called, the message is logged as
    a launch error and both variables are null. *)
Theorem X17_launch_needs_directory os g :
  init_begins os g (run os startServer g)
  /\ (browser g = None -> init_begins os g (run os start_browser g)).
Proof.
  split.
  - unfold init_begins, startServer, await_async, initBrowser. cbn.
    destruct (os N DateNow) as [t|m3] eqn:E3; cbn;
      [destruct (os unit (MkdirSync t)) as [[]|m4] eqn:E4; cbn|];
      repeat split; first [reflexivity | in_list].
  - destruct g as [[b|] p]; [discriminate|]. intros _.
    unfold init_begins, start_browser, await_async, initBrowser. cbn.
    destruct (os N DateNow) as [t|m3] eqn:E3; cbn;
      [destruct (os unit (MkdirSync t)) as [[]|m4] eqn:E4; cbn|];
      repeat split; first [reflexivity | in_list].
Qed.

Lemma X17_launch_needs_directory_witness :
  browser absent = None
  /\ init_begins (calm 1) absent (run (calm 1) start_browser absent).
Proof.
  split; [reflexivity|].
  destruct (X17_launch_needs_directory (calm 1) absent) as [_ H].
  exact (H eq_refl).
Defined.
